(** * The incremental build engine of market_data/db_creation

    A shallow embedding of [build_common.py] (step registry, dependency
    index, manifest store, stale-artifact cleanup) and of [build.py]
    (planner, executor, command line), followed by the properties of the
    specification that are checked against it.

    Conventions of the embedding:
    - Python [str] is [string]; a [dict] keyed by strings is a [gmap string _];
      a [set] of strings is a [gset string]; tuples and lists are [list].
    - The process-wide registry [_steps] is passed explicitly as a list.
    - The output directory [OUTPUT_DIR] is a finite map from entry names to
      nodes, or [None] when the directory does not exist.
    - A Python call that may raise returns a [result]; code that also mutates
      the file system or writes to the terminal lives in the monad [M]. *)

From Stdlib Require Import ZArith.
From Stdlib Require OrderedTypeEx.
From stdpp Require Import gmap strings list fin_maps fin_sets relations
  sorting.

Set Warnings "-clear-no-such-hyp".

Open Scope string_scope.
Open Scope list_scope.
Open Scope nat_scope.

(* ===================================================================== *)
(** ** Worlds, exceptions and the execution monad                         *)
(* ===================================================================== *)

(** A manifest entry: [{"completed_at": ..., "elapsed_seconds": ...}].
    The clock is read in integer ticks of a tenth of a second, which is the
    precision [round(elapsed, 1)] keeps. *)
Record entry := Entry { completed_at : Z; elapsed_seconds : Z }.

Abbreviation manifest := (gmap string entry).

(** What a regular file holds: a JSON manifest document, or anything else
    ([json.load] raises on the latter). *)
Inductive content :=
| Json (doc : manifest)
| Bytes (data : string).

(** An entry of the output directory: a file, or a directory tree (a
    partitioned artifact) of which only the member files are recorded. *)
Inductive node :=
| File (c : content)
| Dir (members : list (string * content)).

Abbreviation dir := (gmap string node).

(** The part of the environment a step's action can observe and change. *)
Record World := mkWorld {
  out_dir : option dir;        (* None: OUTPUT_DIR does not exist *)
  clock : Z                    (* time.time(), in ticks *)
}.

(** Python exceptions that the modelled code can meet. *)
Inductive exn :=
| FileNotFoundError (path : string)
| IsADirectoryError (path : string)
| NotADirectoryError (path : string)
| OSError (msg : string)
| JSONDecodeError (path : string)
| RuntimeError (msg : string)
| IOException (msg : string).

Inductive result (A : Type) :=
| Ret (a : A)
| Raise (e : exn).
Arguments Ret {A} a.
Arguments Raise {A} e.

(** A step's action: [func(con)].  It works on the world and either returns
    or raises. *)
Definition action := World → World * option exn.

(** Messages passed to [log]. *)
Inductive message :=
| MsgCleaning (name : string)
| MsgNothingToDo
| MsgDryRun
| MsgDryStep (step_id target : string) (is_new : bool)
| MsgRunning (n : nat)
| MsgStep (step_id target : string)
| MsgFailed (step_id : string) (e : exn)
| MsgDone (elapsed : Z)
| MsgComplete.

(** What a run does that is visible from outside, in order. *)
Inductive event :=
| Log (m : message)                       (* log(...) *)
| Called (step_id : string)               (* func(con) was invoked *)
| Reported                                (* run_summary() was invoked *)
| Printed (step_id target : string) (done : option entry)
          (deps : list string).           (* a row of list_steps *)

Record Machine := mkMachine {
  world : World;
  trace : list event
}.

(** State and exception monad of the executor. *)
Definition M (A : Type) : Type := Machine → result A * Machine.

Definition ret {A} (a : A) : M A := λ s, (Ret a, s).

Definition raise {A} (e : exn) : M A := λ s, (Raise e, s).

Definition bind {A B} (c : M A) (k : A → M B) : M B :=
  λ s, match c s with
       | (Ret a, s') => k a s'
       | (Raise e, s') => (Raise e, s')
       end.

Notation "'let*' x ':=' c 'in' k" := (bind c (λ x, k))
  (at level 10, x name, c at level 100, k at level 200, only parsing).
Notation "'do' c 'then' k" := (bind c (λ _, k))
  (at level 10, c at level 100, k at level 200, only parsing).

Definition emit (e : event) : M unit :=
  λ s, (Ret tt, mkMachine (world s) (trace s ++ [e])).

Definition log (m : message) : M unit := emit (Log m).

Definition set_out_dir (d : option dir) : M unit :=
  λ s, (Ret tt, mkMachine (mkWorld d (clock (world s))) (trace s)).

(* ===================================================================== *)
(** ** Step registry ([build_common.py])                                  *)
(* ===================================================================== *)

(** One element of [_steps]: [(step_id, target, depends_on, func)]. *)
Record Step := mkStep {
  step_id : string;
  target : string;
  depends_on : list string;
  func : action
}.

(** The two module-level tables: [_steps] and [_target_to_steps]. *)
Record Registry := mkRegistry {
  steps : list Step;
  target_to_steps : gmap string (list string)
}.

Definition empty_registry : Registry := mkRegistry [] ∅.

(** [step(step_id, target, depends_on)(func)]: the decorator appends the
    step and files its id under its target. *)
Definition step (sid tgt : string) (deps : list string) (fn : action)
    (r : Registry) : Registry :=
  mkRegistry
    (steps r ++ [mkStep sid tgt deps fn])
    (<[tgt := default [] (target_to_steps r !! tgt) ++ [sid]]>
       (target_to_steps r)).

(** [dependents.setdefault(dep, set()).add(target)] *)
Definition add_dependent (tgt : string) (g : gmap string (gset string))
    (dep : string) : gmap string (gset string) :=
  <[dep := default ∅ (g !! dep) ∪ {[tgt]}]> g.

(** [get_dependency_graph]: target -> set of targets that depend on it. *)
Definition get_dependency_graph (reg : list Step) : gmap string (gset string) :=
  fold_left (λ g s, fold_left (add_dependent (target s)) (depends_on s) g)
            reg ∅.

(** The [while queue:] loop of [get_downstream_targets], one iteration per
    unit of fuel.  [None] means the fuel ran out before the queue did.
    The successors of a node are appended in the iteration order of a set,
    which Python leaves unspecified; it is a parameter here. *)
Fixpoint bfs_loop (iter : gset string → list string)
    (graph : gmap string (gset string)) (fuel : nat)
    (visited : gset string) (queue : list string) : option (gset string) :=
  match fuel with
  | O => None
  | S fuel' =>
      match queue with
      | [] => Some visited
      | t :: queue' =>
          if decide (t ∈ visited) then bfs_loop iter graph fuel' visited queue'
          else bfs_loop iter graph fuel' (visited ∪ {[t]})
                 (queue' ++ iter (default ∅ (graph !! t)))
      end
  end.

(** Every target that occurs in the graph or is the start of the search. *)
Definition graph_nodes (graph : gmap string (gset string)) (start : string)
    : gset string :=
  {[start]} ∪ ⋃ (map_to_list graph).*2.

(** A number of iterations that the loop never exceeds (see
    [bfs_loop_terminates]). *)
Definition bfs_fuel (graph : gmap string (gset string)) (start : string) : nat :=
  let n := size (graph_nodes graph start) in
  S (S (n * S n)).

(** [get_downstream_targets(target)] *)
Definition get_downstream_targets (reg : list Step) (tgt : string)
    : gset string :=
  let graph := get_dependency_graph reg in
  match bfs_loop elements graph (bfs_fuel graph tgt) ∅ [tgt] with
  | Some visited => visited ∖ {[tgt]}
  | None => ∅
  end.

(* ===================================================================== *)
(** ** Manifest store ([build_common.py])                                 *)
(* ===================================================================== *)

(** Names, inside [OUTPUT_DIR], of the manifest and of its staging file. *)
Definition MANIFEST_FILE : string := ".build_manifest.json".
Definition MANIFEST_TMP : string := MANIFEST_FILE +:+ ".tmp".

(** [load_manifest].  [Json doc] is a file that holds a dictionary of
    entries; [Bytes] at this path stands for text [json.load] rejects.  A
    file that holds another JSON value (a list, [null], a dictionary whose
    values are not entries) has no counterpart among the worlds: the
    statements that depend on how such a file loads are stated for the
    other worlds only. *)
Definition load_manifest : M manifest :=
  λ s, match out_dir (world s) ≫= (.!! MANIFEST_FILE) with
       | None => ret ∅ s                                   (* not exists() *)
       | Some (File (Json doc)) => ret doc s               (* json.load(f) *)
       | Some (File (Bytes _)) => raise (JSONDecodeError MANIFEST_FILE) s
       | Some (Dir _) => raise (IsADirectoryError MANIFEST_FILE) s
       end.

(** The file-system calls [save_manifest] is made of. *)
Inductive fs_op :=
| Mkdir                               (* OUTPUT_DIR.mkdir(parents, exist_ok) *)
| OpenW (name : string)               (* open(name, "w") *)
| Write (name : string) (c : content) (* json.dump(..., f), and the close *)
| Rename (src dst : string).          (* src.rename(dst) *)

Definition fs_step (op : fs_op) (d : option dir) : result (option dir) :=
  match op, d with
  | Mkdir, None => Ret (Some ∅)
  | Mkdir, Some d => Ret (Some d)
  | OpenW name, None => Raise (FileNotFoundError name)
  | OpenW name, Some d =>
      match d !! name with
      | Some (Dir _) => Raise (IsADirectoryError name)
      | _ => Ret (Some (<[name := File (Bytes "")]> d))
      end
  | Write name c, None => Raise (FileNotFoundError name)
  | Write name c, Some d => Ret (Some (<[name := File c]> d))
  | Rename src dst, None => Raise (FileNotFoundError src)
  | Rename src dst, Some d =>
      match d !! src, d !! dst with
      | None, _ => Raise (FileNotFoundError src)
      | Some (File _), Some (Dir _) => Raise (IsADirectoryError dst)
      | Some (Dir _), Some (File _) => Raise (NotADirectoryError dst)
      | Some (Dir _), Some (Dir (_ :: _)) => Raise (OSError dst)
      | Some n, _ => Ret (Some (<[dst := n]> (delete src d)))
      end
  end.

(** Run the calls in order; the first one that raises ends the sequence and
    leaves the directory as the earlier calls made it. *)
Fixpoint run_ops (ops : list fs_op) (d : option dir) : result unit * option dir :=
  match ops with
  | [] => (Ret tt, d)
  | op :: ops' =>
      match fs_step op d with
      | Ret d' => run_ops ops' d'
      | Raise e => (Raise e, d)
      end
  end.

Definition save_ops (m : manifest) : list fs_op :=
  [ Mkdir; OpenW MANIFEST_TMP; Write MANIFEST_TMP (Json m);
    Rename MANIFEST_TMP MANIFEST_FILE ].

(** [save_manifest(manifest)] *)
Definition save_manifest (m : manifest) : M unit :=
  λ s, let '(r, d) := run_ops (save_ops m) (out_dir (world s)) in
       (r, mkMachine (mkWorld d (clock (world s))) (trace s)).

(* ===================================================================== *)
(** ** Cleanup ([build_common.py])                                        *)
(* ===================================================================== *)

(** [s.startswith(p)] and [s.endswith(p)] *)
Definition startswith (s p : string) : bool := String.prefix p s.

Definition endswith (s p : string) : bool :=
  (String.length p <=? String.length s)%nat
  && String.eqb
       (String.substring (String.length s - String.length p) (String.length p) s)
       p.

(** [sorted(X)] on a set of strings: by code points, which is the order of
    the bytes of the UTF-8 text. *)
Definition string_le (a b : string) : Prop := String.leb a b = true.

#[global] Instance string_le_dec (a b : string) : Decision (string_le a b) :=
  decide (String.leb a b = true).

Definition string_sorted (X : gset string) : list string :=
  merge_sort string_le (elements X).

(** [item.is_dir()], [shutil.rmtree(item)] and [item.unlink()] on an entry
    of the output directory. *)
Definition is_dir (d : dir) (name : string) : bool :=
  match d !! name with Some (Dir _) => true | _ => false end.

Definition rmtree (name : string) (d : dir) : dir := delete name d.

Definition unlink (name : string) (d : dir) : dir := delete name d.

Definition remove_item (name : string) : M unit :=
  λ s, match out_dir (world s) with
       | Some d =>
           set_out_dir
             (Some (if is_dir d name then rmtree name d else unlink name d)) s
       | None => ret tt s
       end.

(** The body of the [for item in OUTPUT_DIR.iterdir()] loop. *)
Definition cleanup_item (name : string) : M unit :=
  if endswith name ".tmp" then
    do log (MsgCleaning name) then remove_item name
  else if endswith name "_old" || endswith name "_building"
          || startswith name "_" then
    do log (MsgCleaning name) then remove_item name
  else ret tt.

Fixpoint for_each {A} (body : A → M unit) (l : list A) : M unit :=
  match l with
  | [] => ret tt
  | x :: l' => do body x then for_each body l'
  end.

(** [cleanup_stale_artifacts] *)
Definition cleanup_stale_artifacts : M unit :=
  λ s, match out_dir (world s) with
       | None => ret tt s
       | Some d => for_each cleanup_item (map_to_list d).*1 s
       end.

(* ===================================================================== *)
(** ** Planner ([build.py])                                               *)
(* ===================================================================== *)

(** An element of the plan: [(step_id, target, func)]. *)
Definition plan_item : Type := string * string * action.

Definition item_of (s : Step) : plan_item := (step_id s, target s, func s).

Definition item_id (it : plan_item) : string := it.1.1.
Definition item_target (it : plan_item) : string := it.1.2.
Definition item_func (it : plan_item) : action := it.2.

(** The first loop of [determine_steps_to_run]:
    [force_targets.add(t); force_targets.update(get_downstream_targets(t))]. *)
Definition force_targets (reg : list Step) (requested : list string)
    : gset string :=
  fold_left (λ force t, force ∪ {[t]} ∪ get_downstream_targets reg t)
            requested ∅.

(** [any(dep in rebuilt_this_run for dep in depends_on)] *)
Definition any_rebuilt (rebuilt : gset string) (deps : list string) : bool :=
  existsb (λ dep, bool_decide (dep ∈ rebuilt)) deps.

(** The three tests on one step, in the order of the source. *)
Definition should_run (m : manifest) (force rebuilt : gset string)
    (s : Step) : bool :=
  let should_run := false in
  let should_run :=
    if bool_decide (m !! step_id s = None) then true else should_run in
  let should_run :=
    if bool_decide (target s ∈ force) then true else should_run in
  let should_run :=
    if any_rebuilt rebuilt (depends_on s) then true else should_run in
  should_run.

(** The body of the second loop, on the pair
    [(rebuilt_this_run, to_run)]. *)
Definition walk_step (m : manifest) (force : gset string)
    (st : gset string * list plan_item) (s : Step)
    : gset string * list plan_item :=
  if should_run m force st.1 s
  then (st.1 ∪ {[target s]}, st.2 ++ [item_of s])
  else st.

(** [determine_steps_to_run(manifest, requested_targets, full_rebuild)] *)
Definition determine_steps_to_run (reg : list Step) (m : manifest)
    (requested : list string) (full_rebuild : bool) : list plan_item :=
  if full_rebuild then item_of <$> reg
  else (fold_left (walk_step m (force_targets reg requested)) reg (∅, [])).2.

(* ===================================================================== *)
(** ** Reporter ([summary.py])                                            *)
(* ===================================================================== *)

(** [ALL_TABLES], as the table name and the entry of the output directory
    its summary reads. *)
Definition ALL_TABLES : list (string * string) :=
  [ ("tickers", "tickers.parquet");
    ("prices", "prices");
    ("daily_aggs", "daily_aggs");
    ("ten_day_aggs", "ten_day_aggs.parquet");
    ("hundred_day_aggs", "hundred_day_aggs.parquet");
    ("market_cap", "market_cap.parquet");
    ("insider_trades", "insider_trades.parquet") ].

Section Engine.

(** The query engine as the reporter uses it: the queries of one table's
    summary, run on the artifact found, either go through or raise. *)
Variable query : string → node → option exn.

(** One [summarize_*]: return at once when the artifact is not there,
    otherwise query it. *)
Definition summarize (table : string * string) : M unit :=
  λ s, match out_dir (world s) ≫= (.!! table.2) with
       | None => ret tt s
       | Some n =>
           match query table.1 n with
           | None => ret tt s
           | Some e => raise e s
           end
       end.

(** [run_summary()] with the default [tables=None] *)
Definition run_summary : M unit :=
  do emit Reported then for_each summarize ALL_TABLES.

(* ===================================================================== *)
(** ** Executor ([build.py])                                              *)
(* ===================================================================== *)

(** [time.time()] and [datetime.now()]: a reading of the clock, which
    only the actions advance. *)
Definition now : M Z := λ s, (Ret (clock (world s)), s).

(** [con = make_connection(); try: func(con) except Exception as e: ...
    finally: con.close()]: the call, with what it raised if it did.  The
    connection is an in-memory database opened for this call alone and
    closed on both paths; it carries nothing from one step to the next. *)
Definition call (sid : string) (fn : action) : M (option exn) :=
  λ s, let '(w, r) := fn (world s) in
       (Ret r, mkMachine w (trace s ++ [Called sid])).

(** [OUTPUT_DIR.mkdir(parents=True, exist_ok=True)] *)
Definition mkdir_output : M unit :=
  λ s, set_out_dir (Some (default ∅ (out_dir (world s)))) s.

(** The [for step_id, target, func in steps_to_run] loop of [run_build],
    threading the dictionary [manifest] that the loop updates in place.
    The flag is [false] for the early [return False] and [true] when the
    loop runs to its end. *)
Fixpoint run_steps (plan : list plan_item) (m : manifest)
    : M (bool * manifest) :=
  match plan with
  | [] => ret (true, m)
  | (sid, tgt, fn) :: plan' =>
      do log (MsgStep sid tgt) then
      let* t0 := now in
      let* raised := call sid fn in
      match raised with
      | Some e => do log (MsgFailed sid e) then ret (false, m)
      | None =>
          let* t1 := now in
          let elapsed := (t1 - t0)%Z in
          let* stamp := now in
          let m' := <[sid := Entry stamp elapsed]> m in
          do save_manifest m' then
          do log (MsgDone elapsed) then
          run_steps plan' m'
      end
  end.

Definition log_dry_step (m : manifest) (it : plan_item) : M unit :=
  log (MsgDryStep (item_id it) (item_target it)
         (bool_decide (m !! item_id it = None))).

(** [run_build(requested_targets, full_rebuild, dry_run)] *)
Definition run_build (reg : list Step) (requested : list string)
    (full_rebuild dry_run : bool) : M bool :=
  do cleanup_stale_artifacts then
  let* m := (if full_rebuild then ret ∅ else load_manifest) in
  let steps_to_run := determine_steps_to_run reg m requested full_rebuild in
  if bool_decide (steps_to_run = []) then
    do log MsgNothingToDo then
    do run_summary then
    ret true
  else if dry_run then
    do log MsgDryRun then
    do for_each (log_dry_step m) steps_to_run then
    ret true
  else
    do log (MsgRunning (length steps_to_run)) then
    do mkdir_output then
    let* finished := run_steps steps_to_run m in
    if finished.1 then
      do log MsgComplete then
      do run_summary then
      ret true
    else ret false.

(** [list_steps()], on a manifest that is a dictionary of entries (see
    [load_manifest]). *)
Definition list_steps (reg : list Step) : M unit :=
  let* m := load_manifest in
  for_each (λ s, emit (Printed (step_id s) (target s) (m !! step_id s)
                               (depends_on s)))
           reg.

(* ===================================================================== *)
(** ** Command line ([build.py])                                          *)
(* ===================================================================== *)

(** The namespace [parser.parse_args()] returns. *)
Record Args := mkArgs {
  arg_targets : list string;
  arg_full : bool;
  arg_list_steps : bool;
  arg_dry_run : bool
}.

(** How the process ends. *)
Inductive exit :=
| Returned                       (* main() returned *)
| SysExitMsg (msg : string)      (* sys.exit("...") *)
| SysExit (code : Z)             (* sys.exit(n) *)
| Uncaught (e : exn).            (* an exception left main() *)

(** The exit status the interpreter gives the process. *)
Definition exit_status (x : exit) : Z :=
  match x with
  | Returned => 0
  | SysExitMsg _ => 1
  | SysExit code => code
  | Uncaught _ => 1
  end.

(** The first requested target that is not the target of a registered
    step, if there is one, and the message [main] exits with. *)
Definition unknown_target (reg : list Step) (targets : list string)
    : option string :=
  let known_targets : gset string := list_to_set (target <$> reg) in
  find (λ t, bool_decide (t ∉ known_targets)) targets.

Definition unknown_target_message (reg : list Step) (t : string) : string :=
  let known_targets : gset string := list_to_set (target <$> reg) in
  "Unknown target: '" +:+ t +:+ "'. Known targets: "
  +:+ String.concat ", " (string_sorted known_targets).

(** What [parser.parse_args()] makes of the command line: the namespace,
    or the status it exits with ([2] on an argument it rejects, [0] after
    [--help]).  What the parser prints is left out. *)
Definition parser : Type := list string → Args + Z.

(** [main()] *)
Definition main (parse_args : parser) (reg : list Step) (argv : list string)
    (s : Machine) : exit * Machine :=
  match parse_args argv with
  | inr code => (SysExit code, s)
  | inl args =>
      if arg_list_steps args then
        match list_steps reg s with
        | (Ret _, s') => (Returned, s')
        | (Raise e, s') => (Uncaught e, s')
        end
      else
        match unknown_target reg (arg_targets args) with
        | Some t => (SysExitMsg (unknown_target_message reg t), s)
        | None =>
            match run_build reg (arg_targets args) (arg_full args)
                            (arg_dry_run args) s with
            | (Ret true, s') => (Returned, s')
            | (Ret false, s') => (SysExit 1, s')
            | (Raise e, s') => (Uncaught e, s')
            end
        end
  end.

End Engine.

(* ===================================================================== *)
(** ** Notions the properties are stated with                             *)
(* ===================================================================== *)

(** [depends_directly reg u v]: some registered step builds [u] and lists
    [v] in its [depends_on]. *)
Definition depends_directly (reg : list Step) (u v : string) : Prop :=
  ∃ s, s ∈ reg ∧ target s = u ∧ v ∈ depends_on s.

(** An edge of the reverse-dependency graph: [v] is a dependent of [u]. *)
Definition edge (graph : gmap string (gset string)) (u v : string) : Prop :=
  v ∈ default ∅ (graph !! u).

(** What the loop of the search keeps true of [visited] and [queue]: all
    of it can be reached from [start], [start] is in it, and the dependents
    of a visited node are visited or pending. *)
Definition bfs_inv (graph : gmap string (gset string)) (start : string)
    (visited : gset string) (queue : list string) : Prop :=
  (∀ v, v ∈ visited ∨ v ∈ queue → rtc (edge graph) start v)
  ∧ (start ∈ visited ∨ start ∈ queue)
  ∧ (∀ v w, v ∈ visited → edge graph v w → w ∈ visited ∨ w ∈ queue).

(** The steps of [l] at the positions [sel] marks, counting from [i]. *)
Fixpoint select_from {A} (sel : nat → bool) (i : nat) (l : list A) : list A :=
  match l with
  | [] => []
  | x :: l' =>
      if sel i then x :: select_from sel (S i) l' else select_from sel (S i) l'
  end.

(** The decisions the walk takes on [l], started with [rebuilt]. *)
Fixpoint decisions (m : manifest) (force rebuilt : gset string)
    (l : list Step) : list bool :=
  match l with
  | [] => []
  | s :: l' =>
      let b := should_run m force rebuilt s in
      b :: decisions m force (if b then rebuilt ∪ {[target s]} else rebuilt) l'
  end.

Definition decided (bs : list bool) (i : nat) : bool := default false (bs !! i).

(** The entry of the output directory at the manifest's path. *)
Definition persisted (w : World) : option node :=
  out_dir w ≫= (.!! MANIFEST_FILE).

(** The entry at the staging path of the manifest. *)
Definition staged (w : World) : option node :=
  out_dir w ≫= (.!! MANIFEST_TMP).

(** The names [cleanup_stale_artifacts] removes. *)
Definition is_stale (name : string) : bool :=
  endswith name ".tmp"
  || (endswith name "_old" || endswith name "_building" || startswith name "_").

(** A directory without its stale entries. *)
Definition cleaned (d : dir) : dir := filter (λ p, is_stale p.1 = false) d.

(** The ids of the steps whose action was invoked, in order. *)
Definition calls_of (tr : list event) : list string :=
  omap (λ e, match e with Called sid => Some sid | _ => None end) tr.

(** The first part of [run_build], up to the plan. *)
Definition plan_phase (reg : list Step) (requested : list string)
    (full_rebuild : bool) : M (manifest * list plan_item) :=
  do cleanup_stale_artifacts then
  let* m := (if full_rebuild then ret ∅ else load_manifest) in
  ret (m, determine_steps_to_run reg m requested full_rebuild).

(** What [run_build] does between the plan and its loop, in a run that is
    not dry and has something to do. *)
Definition start_phase (plan : list plan_item) : M unit :=
  do log (MsgRunning (length plan)) then mkdir_output.

(** What the reporter does in a given world: return, or raise. *)
Definition summary_outcome (query : string → node → option exn) (w : World)
    : result unit :=
  (run_summary query (mkMachine w [])).1.

(** A step failure in the run that starts from [s]: the plan has a step
    whose action raises once the steps before it have completed. *)
Definition step_fails (reg : list Step) (requested : list string)
    (full_rebuild : bool) (s : Machine) : Prop :=
  ∃ m0 plan s1 done it rest m1 sk e,
    plan_phase reg requested full_rebuild s = (Ret (m0, plan), s1)
    ∧ plan = done ++ it :: rest
    ∧ run_steps done m0 (start_phase plan s1).2 = (Ret (true, m1), sk)
    ∧ (item_func it (world sk)).2 = Some e.

(** What [run_build] returns after its steps, given what the reporter
    does in the world [w]. *)
Definition reported (query : string → node → option exn) (w : World)
    : result bool :=
  match summary_outcome query w with
  | Ret _ => Ret true
  | Raise e => Raise e
  end.

(* ===================================================================== *)
(** ** Sample registries and worlds                                       *)
(* ===================================================================== *)

(** An action that does nothing, and one that raises. *)
Definition noop : action := λ w, (w, None).

Definition failing (msg : string) : action := λ w, (w, Some (RuntimeError msg)).

(** An action that publishes a file under [name] and takes [ticks]. *)
Definition publish (name : string) (ticks : Z) : action :=
  λ w, (mkWorld (Some (<[name := File (Bytes name)]> (default ∅ (out_dir w))))
                (clock w + ticks), None).

(** The registry the modules under [steps/] build, in import order, with
    the bodies of the steps replaced by [fn]. *)
Definition repo_registry (fn : string → action) : Registry :=
  step "insider_trades_v2" "insider_trades" ["tickers"] (fn "insider_trades")
    (step "market_cap_v2" "market_cap" ["tickers"] (fn "market_cap")
      (step "hundred_day_aggs_v1" "hundred_day_aggs" ["daily_aggs"]
            (fn "hundred_day_aggs")
        (step "daily_aggs_v2" "daily_aggs" ["prices"] (fn "daily_aggs")
          (step "prices_v2" "prices" ["tickers"] (fn "prices")
            (step "tickers_v1" "tickers" [] (fn "tickers")
               empty_registry))))).

(** A diamond: b and c read a, d reads b and c. *)
Definition diamond : list Step :=
  [ mkStep "A" "a" [] noop;
    mkStep "B" "b" ["a"] noop;
    mkStep "C" "c" ["a"] noop;
    mkStep "D" "d" ["b"; "c"] noop ].

(** A cycle: x reads y and y reads x. *)
Definition cyclic : list Step :=
  [ mkStep "X" "x" ["y"] noop;
    mkStep "Y" "y" ["x"] noop ].

(** Three steps in a chain, the second of which raises. *)
Definition chain_failing : list Step :=
  [ mkStep "A" "t1" [] (publish "t1" 7);
    mkStep "B" "t2" ["t1"] (failing "boom");
    mkStep "C" "t3" ["t2"] (publish "t3" 5) ].

(** The same chain with every step going through. *)
Definition chain : list Step :=
  [ mkStep "A" "t1" [] (publish "t1" 7);
    mkStep "B" "t2" ["t1"] (publish "t2" 3);
    mkStep "C" "t3" ["t2"] (publish "t3" 5) ].

(** The manifest after a run that built the three steps of the chain. *)
Definition chain_built : manifest :=
  <["A" := Entry 1 1]> (<["B" := Entry 2 1]> (<["C" := Entry 3 1]> ∅)).

(** A parser that accepts the command line and gives [args]. *)
Definition parsed (args : Args) : parser := λ _, inl args.

(** A query engine that never raises, and one that cannot read [prices]. *)
Definition query_ok : string → node → option exn := λ _ _, None.

Definition query_no_files : string → node → option exn :=
  λ table _, if String.eqb table "prices"
             then Some (IOException "No files found") else None.

(** A fresh machine: no output directory yet. *)
Definition fresh : Machine := mkMachine (mkWorld None 0) [].

(** A machine whose output directory holds the manifest of an earlier
    run, an empty [prices] directory and the residue of an interrupted
    publish. *)
Definition old_manifest : manifest := <["retired_v0" := Entry 3 1]> ∅.

Definition used : Machine :=
  mkMachine
    (mkWorld
       (Some (<[MANIFEST_FILE := File (Json old_manifest)]>
             (<["prices" := Dir []]>
             (<["_staging" := Dir [("part", Bytes "x")]]> ∅))))
       100)
    [].

(** The dictionary a run of the loop ended with. *)
Definition loop_manifest (x : result (bool * manifest) * Machine) : manifest :=
  match x.1 with
  | Ret (_, m) => m
  | Raise _ => ∅
  end.

(** The machine at which the loop of a run without requests starts. *)
Definition started (reg : list Step) (full : bool) (s : Machine) : Machine :=
  (start_phase (item_of <$> reg) (plan_phase reg [] full s).2).2.

(** The failing chain after its step A, from a fresh machine. *)
Definition chain_failing_A : result (bool * manifest) * Machine :=
  run_steps (take 1 (item_of <$> chain_failing)) ∅
            (started chain_failing false fresh).

(** A registry of one step, and its run from a fresh machine. *)
Definition solo : list Step := [ mkStep "A" "t1" [] (publish "t1" 7) ].

Definition solo_A : result (bool * manifest) * Machine :=
  run_steps (item_of <$> solo) ∅ (started solo false fresh).

(** A registry of two steps that do nothing, and its full rebuild over the
    used output directory after its step A. *)
Definition duo : list Step :=
  [ mkStep "A" "a" [] noop; mkStep "B" "b" ["a"] noop ].

Definition duo_full_A : result (bool * manifest) * Machine :=
  run_steps (take 1 (item_of <$> duo)) ∅ (started duo true used).

(* ===================================================================== *)
(** ** Further notions                                                    *)
(* ===================================================================== *)

(** Registering the steps of [l] one after the other, as the modules under
    [steps/] do when they are imported. *)
Definition register_all (l : list Step) (r : Registry) : Registry :=
  fold_left (λ r s, step (step_id s) (target s) (depends_on s) (func s) r) l r.

(** The ids of the steps of [l] that build [t], in order. *)
Definition ids_of (t : string) (l : list Step) : list string :=
  step_id <$> filter (λ s, target s = t) l.

(** [_target_to_steps] agrees with [_steps]: under each target, the ids of
    the steps that build it, in registration order, and no key for a target
    no step builds. *)
Definition index_agrees (r : Registry) : Prop :=
  ∀ t, target_to_steps r !! t
       = match ids_of t (steps r) with
         | [] => None
         | ids => Some ids
         end.



(** A directory sits at a path. *)
Definition is_directory (n : option node) : Prop := ∃ ms, n = Some (Dir ms).

(** The lines [cleanup_stale_artifacts] logs for the entries [names]. *)
Definition cleaning_log (names : list string) : list event :=
  (λ n, Log (MsgCleaning n)) <$> filter (λ n, is_stale n = true) names.

(** The names of the output directory, in the order [iterdir] gives them. *)
Definition entry_names (w : World) : list string :=
  match out_dir w with
  | Some d => (map_to_list d).*1
  | None => []
  end.

(** An action that leaves the manifest and its staging file alone. *)
Definition keeps_manifest_store (fn : action) : Prop :=
  ∀ w, persisted (fn w).1 = persisted w ∧ staged (fn w).1 = staged w.


Definition list_rows (m : manifest) (reg : list Step) : list event :=
  (λ s, Printed (step_id s) (target s) (m !! step_id s) (depends_on s)) <$> reg.

(* ===================================================================== *)
(** ** Publishing artifacts ([build_common.py], [steps/])                 *)
(* ===================================================================== *)

(** The query engine as the steps use it: [rows n] is what
    [SELECT COUNT( * ) FROM read_parquet(...)] gives on the file or the
    directory [n], or the exception it raises. *)
Definition row_counter : Type := node → result Z.

(** [verify_parquet(path, min_rows)] on the entry [name] of the output
    directory; the engine cannot read a path that is missing. *)
Definition verify_parquet (rows : row_counter) (name : string) (min_rows : Z)
    (od : option dir) : result Z :=
  match od ≫= (.!! name) with
  | Some n =>
      match rows n with
      | Ret count =>
          if (count <? min_rows)%Z
          then Raise (RuntimeError "Verification failed")
          else Ret count
      | Raise e => Raise e
      end
  | None => Raise (IOException name)
  end.

(** The body shared by [build_hundred_day_aggs], [build_market_cap] and
    [build_insider_trades]:
    [tmp = dest + ".tmp"; (OUTPUT_DIR.mkdir(...);) con.execute(COPY ... TO tmp);
     tmp.rename(dest); verify_parquet(dest)].
    [copy] is the query of the [COPY] on the output directory it reads,
    giving what it writes or the exception it raises; the engine cannot
    write [tmp] when the output directory is missing or [tmp] is a
    directory.  The result is the directory left behind and what was
    raised, if anything; the lines the step logs are left out. *)
Definition publish_file (rows : row_counter) (mkdir_first : bool)
    (dest : string) (copy : option dir → result content) (od : option dir)
    : option dir * option exn :=
  let tmp := dest +:+ ".tmp" in
  let od1 := if mkdir_first then Some (default ∅ od) else od in
  match copy od1 with
  | Raise e => (od1, Some e)
  | Ret c =>
      match od1 with
      | None => (od1, Some (IOException tmp))
      | Some d =>
          if is_dir d tmp then (od1, Some (IOException tmp))
          else
            let od2 := Some (<[tmp := File c]> d) in
            match fs_step (Rename tmp dest) od2 with
            | Raise e => (od2, Some e)
            | Ret od3 =>
                match verify_parquet rows dest 1 od3 with
                | Raise e => (od3, Some e)
                | Ret _ => (od3, None)
                end
            end
      end
  end.

Definition build_hundred_day_aggs (rows : row_counter)
    (copy : option dir → result content) : option dir → option dir * option exn :=
  publish_file rows false "hundred_day_aggs.parquet" copy.

Definition build_market_cap (rows : row_counter)
    (copy : option dir → result content) : option dir → option dir * option exn :=
  publish_file rows true "market_cap.parquet" copy.

Definition build_insider_trades (rows : row_counter)
    (copy : option dir → result content) : option dir → option dir * option exn :=
  publish_file rows true "insider_trades.parquet" copy.

(** A step body as an action that takes [ticks] of the clock. *)
Definition as_action (ticks : Z)
    (body : option dir → option dir * option exn) : action :=
  λ w, let '(od, raised) := body (out_dir w) in
       (mkWorld od (clock w + ticks), raised).

(** The calls of the directory swap at the end of [build_prices] and
    [build_daily_aggs]: the renames of [fs_op], and [shutil.rmtree]. *)
Inductive publish_op :=
| Fs (op : fs_op)
| RmTree (name : string).

Definition publish_step (op : publish_op) (od : option dir)
    : result (option dir) :=
  match op with
  | Fs op => fs_step op od
  | RmTree name =>
      match od ≫= (.!! name) with
      | None => Raise (FileNotFoundError name)
      | Some (File _) => Raise (NotADirectoryError name)
      | Some (Dir _) => Ret (rmtree name <$> od)
      end
  end.

Fixpoint run_publish_ops (ops : list publish_op) (od : option dir)
    : result unit * option dir :=
  match ops with
  | [] => (Ret tt, od)
  | op :: ops' =>
      match publish_step op od with
      | Ret od' => run_publish_ops ops' od'
      | Raise e => (Raise e, od)
      end
  end.

(** [if final.exists(): stale = final + "_old"; final.rename(stale);
     building.rename(final); shutil.rmtree(stale)
     else: building.rename(final)],
    with [building = final + "_building"] as in both steps. *)
Definition swap_ops (final : string) (od : option dir) : list publish_op :=
  let building := final +:+ "_building" in
  let stale := final +:+ "_old" in
  if bool_decide (is_Some (od ≫= (.!! final))) then
    [ Fs (Rename final stale); Fs (Rename building final); RmTree stale ]
  else
    [ Fs (Rename building final) ].

Definition swap_in (final : string) (od : option dir)
    : result unit * option dir :=
  run_publish_ops (swap_ops final od) od.

(* ===================================================================== *)
(** ** Ticker discovery ([build_common.py], [steps/v1_tickers.py])        *)
(* ===================================================================== *)

Definition TICKER_SUFFIX : string := "_full_1hour_adjsplitdiv.txt".

(** A ZIP file as [discover_tickers_from_zips] sees it: its path, and the
    names [namelist()] gives, or [None] when opening it raises
    [BadZipFile]. *)
Definition archive : Type := string * option (list string).



(** The loop of [build_tickers] over [all_tickers]: the rows, and
    [overlap_count]. *)
Definition classify_tickers (stock etf : gmap string string)
    (all_tickers : list string) : list (string * string) * nat :=
  fold_left
    (λ acc ticker,
       if bool_decide (is_Some (etf !! ticker)) then
         (acc.1 ++ [(ticker, "etf")],
          if bool_decide (is_Some (stock !! ticker)) then S acc.2 else acc.2)
       else (acc.1 ++ [(ticker, "stock")], acc.2))
    all_tickers ([], 0).

(** [sorted(set(stock_tickers) | set(etf_tickers))], then the loop. *)
Definition build_tickers_rows (stock etf : gmap string string)
    : list (string * string) * nat :=
  classify_tickers stock etf (string_sorted (dom stock ∪ dom etf)).

(** Archive [z] is readable and has a member whose base name is ticker
    [t] followed by the suffix. *)
Definition holds_ticker (basename : string → string) (t : string)
    (z : archive) : Prop :=
  t ≠ ""
  ∧ ∃ names, z.2 = Some names
             ∧ Exists (λ name, basename name = t +:+ TICKER_SUFFIX) names.

#[global] Instance holds_ticker_dec basename t z :
  Decision (holds_ticker basename t z).
Proof.
  unfold holds_ticker. destruct (z.2) as [names|].
  - destruct (decide (t ≠ "")) as [Ht|Ht]; [|right; tauto].
    destruct (decide (Exists (λ name, basename name = t +:+ TICKER_SUFFIX)
                        names)) as [He|He].
    + left. split; [done|]. by exists names.
    + right. intros [_ (names' & [= <-] & ?)]. done.
  - right. by intros [_ (names' & [=] & _)].
Defined.

(* ===================================================================== *)
(** ** More sample worlds                                                 *)
(* ===================================================================== *)

(** A query that writes one file, and engines that count one row and no
    row in it. *)
Definition copy_x : option dir → result content := λ _, Ret (Bytes "x").

Definition one_row : row_counter := λ _, Ret 1%Z.


(** An output directory that holds a fresh build of [prices] only. *)
Definition built_prices : dir := <["prices_building" := Dir []]> ∅.

(** A machine whose output directory holds the staging file of a
    publish of [prices] that did not finish. *)
Definition interrupted : Machine :=
  mkMachine (mkWorld (Some (<["prices.tmp" := File (Bytes "x")]> ∅)) 0) [].

(* ===================================================================== *)
(** * Properties                                                          *)
(* ===================================================================== *)

(** Closes a goal [a = b] between closed terms by evaluating both sides. *)
Ltac by_evaluation :=
  match goal with |- ?a = ?b => vm_cast_no_check (@eq_refl _ b) end.

(** ** The dependency index *)

Lemma add_dependent_edge tgt g dep u v :
  edge (add_dependent tgt g dep) u v ↔ edge g u v ∨ (u = dep ∧ v = tgt).
Proof.
  unfold edge, add_dependent.
  destruct (decide (dep = u)) as [->|Hne].
  - rewrite lookup_insert_eq. simpl. set_solver.
  - rewrite lookup_insert_ne by done. naive_solver.
Qed.

Lemma fold_add_dependent_edge tgt deps g u v :
  edge (fold_left (add_dependent tgt) deps g) u v
  ↔ edge g u v ∨ (u ∈ deps ∧ v = tgt).
Proof.
  revert g. induction deps as [|d deps IH]; intros g; simpl.
  - set_solver.
  - rewrite IH, add_dependent_edge. set_solver.
Qed.

Lemma fold_steps_edge reg g u v :
  edge (fold_left (λ g s, fold_left (add_dependent (target s)) (depends_on s) g)
                  reg g) u v
  ↔ edge g u v ∨ depends_directly reg v u.
Proof.
  revert g. induction reg as [|s reg IH]; intros g; simpl.
  - unfold depends_directly. set_solver.
  - rewrite IH, fold_add_dependent_edge. unfold depends_directly. split.
    + intros [[?|[? ->]]|(s' & ? & ? & ?)]; [by left|right..].
      * exists s. set_solver.
      * exists s'. set_solver.
    + intros [?|(s' & [->|?]%elem_of_cons & <- & ?)]; [by left; left| |].
      * left. by right.
      * right. by exists s'.
Qed.

(** The graph [get_dependency_graph] builds is the reverse of the
    registry's [depends_on]. *)
Lemma get_dependency_graph_edge reg u v :
  edge (get_dependency_graph reg) u v ↔ depends_directly reg v u.
Proof.
  unfold get_dependency_graph. rewrite fold_steps_edge.
  unfold edge. rewrite lookup_empty. set_solver.
Qed.

Lemma successors_in_nodes graph start t :
  default ∅ (graph !! t) ⊆ graph_nodes graph start.
Proof.
  unfold graph_nodes. destruct (graph !! t) as [X|] eqn:Ht; simpl; [|set_solver].
  intros x Hx. apply elem_of_union_r, elem_of_union_list.
  exists X. split; [|done].
  apply list_elem_of_fmap. exists (t, X). split; [done|].
  by apply elem_of_map_to_list.
Qed.

Section Bfs.

Variable iter : gset string → list string.
Hypothesis iter_perm : ∀ X, iter X ≡ₚ elements X.
Variable graph : gmap string (gset string).
Variable start : string.

Let N := graph_nodes graph start.

Lemma iter_elem X x : x ∈ iter X ↔ x ∈ X.
Proof. by rewrite iter_perm, elem_of_elements. Qed.

Lemma iter_length X : length (iter X) = size X.
Proof. by rewrite iter_perm. Qed.

(** The loop ends before [fuel] iterations when [fuel] exceeds the pending
    queue plus what the nodes not yet visited can still add to it. *)
Lemma bfs_loop_enough_fuel fuel visited queue :
  (∀ v, v ∈ queue → v ∈ N) →
  length queue + size (N ∖ visited) * S (size N) < fuel →
  is_Some (bfs_loop iter graph fuel visited queue).
Proof.
  revert visited queue.
  induction fuel as [|fuel IH]; intros visited queue Hq Hlt; [lia|].
  destruct queue as [|t queue]; simpl; [by eexists|].
  assert (Ht : t ∈ N) by (apply Hq; left).
  case_decide as Hv.
  - apply IH; [intros v ?; apply Hq; by right|]. simpl in Hlt. lia.
  - assert (Hsub : N ∖ (visited ∪ {[t]}) ⊂ N ∖ visited) by set_solver.
    apply subset_size in Hsub.
    assert (Hsucc : size (default ∅ (graph !! t)) ≤ size N)
      by apply subseteq_size, successors_in_nodes.
    apply IH.
    + intros v [?|Hin]%elem_of_app; [apply Hq; by right|].
      apply iter_elem in Hin. by eapply successors_in_nodes.
    + rewrite length_app, iter_length. simpl in Hlt. nia.
Qed.

Lemma bfs_loop_terminates :
  is_Some (bfs_loop iter graph (bfs_fuel graph start) ∅ [start]).
Proof.
  apply bfs_loop_enough_fuel.
  - intros v ->%list_elem_of_singleton. unfold N, graph_nodes. set_solver.
  - unfold bfs_fuel. fold N. rewrite difference_empty_L. simpl. lia.
Qed.

(** More fuel than needed does not change the result. *)
Lemma bfs_loop_more_fuel fuel fuel' visited queue res :
  bfs_loop iter graph fuel visited queue = Some res →
  fuel ≤ fuel' →
  bfs_loop iter graph fuel' visited queue = Some res.
Proof.
  revert fuel' visited queue.
  induction fuel as [|fuel IH]; intros fuel' visited queue Hres Hle; [done|].
  destruct fuel' as [|fuel']; [lia|].
  destruct queue as [|t queue]; simpl in *; [done|].
  case_decide; apply IH; (done || lia).
Qed.

Lemma bfs_loop_inv fuel visited queue res :
  bfs_loop iter graph fuel visited queue = Some res →
  bfs_inv graph start visited queue → bfs_inv graph start res [].
Proof.
  revert visited queue.
  induction fuel as [|fuel IH]; intros visited queue Hres Hinv; [done|].
  destruct queue as [|t queue]; simpl in Hres; [by simplify_eq|].
  destruct Hinv as (Hreach & Hstart & Hclosed).
  case_decide as Hv; apply IH in Hres; [done| |done|].
  - split_and!.
    + intros v [?|?]; apply Hreach; [by left|by right; right].
    + destruct Hstart as [?|[->|?]%elem_of_cons]; auto.
    + intros v w Hin He.
      destruct (Hclosed v w Hin He) as [?|[->|?]%elem_of_cons]; auto.
  - split_and!.
    + intros v [[?| ->%elem_of_singleton]%elem_of_union
               |[?|Hin%iter_elem]%elem_of_app].
      * apply Hreach. by left.
      * apply Hreach. right. by left.
      * apply Hreach. right. by right.
      * eapply rtc_r; [apply Hreach; right; by left|done].
    + destruct Hstart as [?|[->|?]%elem_of_cons]; set_solver.
    + intros v w [Hin| ->%elem_of_singleton]%elem_of_union He.
      * destruct (Hclosed v w Hin He) as [?|[->|?]%elem_of_cons];
          set_solver.
      * right. apply elem_of_app. right. by apply iter_elem.
Qed.

(** The set the search returns is what can be reached from [start]. *)
Lemma bfs_loop_reachable res :
  bfs_loop iter graph (bfs_fuel graph start) ∅ [start] = Some res →
  ∀ v, v ∈ res ↔ rtc (edge graph) start v.
Proof.
  intros Hres v. apply bfs_loop_inv in Hres as (Hreach & Hstart & Hclosed).
  - split; [intros ?; apply Hreach; by left|].
    assert (Hs : start ∈ res) by by destruct Hstart as [?|?%elem_of_nil].
    assert (Hcl : ∀ a b, rtc (edge graph) a b → a ∈ res → b ∈ res).
    { induction 1 as [|a b c Hab _ IH]; [done|]. intros Ha. apply IH.
      by destruct (Hclosed a b Ha Hab) as [?|?%elem_of_nil]. }
    intros ?. by eapply Hcl.
  - split_and!.
    + intros v' [?| ->%list_elem_of_singleton]; [set_solver|done].
    + right. by left.
    + intros v' w []%not_elem_of_empty.
Qed.

End Bfs.

Lemma rtc_edge_depends reg t x :
  rtc (edge (get_dependency_graph reg)) t x ↔ rtc (depends_directly reg) x t.
Proof.
  split.
  - induction 1 as [|a b c Hab _ IH]; [done|].
    eapply rtc_r; [done|]. by apply get_dependency_graph_edge.
  - induction 1 as [|a b c Hab _ IH]; [done|].
    eapply rtc_r; [done|]. by apply get_dependency_graph_edge.
Qed.

Lemma elements_perm (X : gset string) : elements X ≡ₚ elements X.
Proof. done. Qed.

(** The search of [get_downstream_targets] ends within its fuel. *)
Lemma get_downstream_targets_visited reg t :
  ∃ visited,
    bfs_loop elements (get_dependency_graph reg)
             (bfs_fuel (get_dependency_graph reg) t) ∅ [t] = Some visited
    ∧ get_downstream_targets reg t = visited ∖ {[t]}.
Proof.
  destruct (bfs_loop_terminates elements elements_perm
              (get_dependency_graph reg) t) as [visited Hv].
  exists visited. split; [done|].
  unfold get_downstream_targets. cbv zeta. by rewrite Hv.
Qed.

(** Membership in the result of [get_downstream_targets]. *)
Lemma elem_of_get_downstream_targets reg t x :
  x ∈ get_downstream_targets reg t ↔ x ≠ t ∧ tc (depends_directly reg) x t.
Proof.
  destruct (get_downstream_targets_visited reg t) as (visited & Hv & ->).
  rewrite elem_of_difference, elem_of_singleton.
  rewrite (bfs_loop_reachable elements elements_perm _ _ _ Hv).
  rewrite rtc_edge_depends, rtc_tc. naive_solver.
Qed.

(** ** The planner *)

Lemma elem_of_force_targets reg requested x :
  x ∈ force_targets reg requested
  ↔ ∃ t, t ∈ requested ∧ (x = t ∨ x ∈ get_downstream_targets reg t).
Proof.
  unfold force_targets.
  assert (Hgen : ∀ acc,
    x ∈ fold_left (λ force t, force ∪ {[t]} ∪ get_downstream_targets reg t)
                  requested acc
    ↔ x ∈ acc ∨ ∃ t, t ∈ requested ∧ (x = t ∨ x ∈ get_downstream_targets reg t)).
  { induction requested as [|t requested IH]; intros acc; simpl.
    - split; [by left|]. by intros [?|(? & ?%elem_of_nil & ?)].
    - rewrite IH, !elem_of_union, elem_of_singleton. split.
      + intros [[[?| ->]|?]|(t' & ? & ?)]; [by left|right..].
        * exists t. split; [left|by left].
        * exists t. split; [left|by right].
        * exists t'. split; [by right|done].
      + intros [?|(t' & [->|?]%elem_of_cons & Hx)]; [by left; left; left| |].
        * left. destruct Hx; [left; by right|by right].
        * right. by exists t'. }
  rewrite Hgen. split; [by intros [?%not_elem_of_empty|?]|by right].
Qed.

Lemma any_rebuilt_spec rebuilt deps :
  any_rebuilt rebuilt deps = true ↔ ∃ d, d ∈ deps ∧ d ∈ rebuilt.
Proof.
  unfold any_rebuilt. rewrite existsb_exists. split.
  - intros (d & Hin%list_elem_of_In & Hd%bool_decide_eq_true). by exists d.
  - intros (d & ? & ?). exists d.
    split; [by apply list_elem_of_In|by apply bool_decide_eq_true].
Qed.

Lemma should_run_spec m force rebuilt s :
  should_run m force rebuilt s = true
  ↔ m !! step_id s = None
    ∨ target s ∈ force
    ∨ ∃ d, d ∈ depends_on s ∧ d ∈ rebuilt.
Proof.
  rewrite <- any_rebuilt_spec. unfold should_run.
  destruct (any_rebuilt rebuilt (depends_on s)); [naive_solver|].
  repeat case_bool_decide; naive_solver.
Qed.

(** The walk, from any intermediate state, in terms of its decisions. *)
Lemma fold_walk_step m force l rebuilt to_run :
  (fold_left (walk_step m force) l (rebuilt, to_run)).2
  = to_run ++ (item_of <$> select_from (decided (decisions m force rebuilt l)) 0 l).
Proof.
  assert (Hshift : ∀ b bs i (l' : list Step),
    select_from (decided (b :: bs)) (S i) l' = select_from (decided bs) i l').
  { intros b bs i l'. revert i. induction l' as [|x l' IH]; intros i; [done|].
    simpl. unfold decided at 1 3. simpl. by rewrite !IH. }
  revert rebuilt to_run.
  induction l as [|s l IH]; intros rebuilt to_run; simpl.
  - by rewrite app_nil_r.
  - unfold walk_step at 2. simpl. unfold decided at 1. simpl.
    rewrite Hshift.
    destruct (should_run m force rebuilt s); rewrite IH; [|done].
    by rewrite <- app_assoc.
Qed.

Lemma decisions_length m force rebuilt l :
  length (decisions m force rebuilt l) = length l.
Proof.
  revert rebuilt. induction l as [|s l IH]; intros rebuilt; simpl; [done|].
  by rewrite IH.
Qed.

(** A step is taken exactly when it is new, forced, or has a dependency
    that was in [rebuilt] at the start or is the target of an earlier step
    taken in this walk. *)
Lemma decisions_spec m force l rebuilt i s :
  l !! i = Some s →
  decided (decisions m force rebuilt l) i = true
  ↔ m !! step_id s = None
    ∨ target s ∈ force
    ∨ ∃ d, d ∈ depends_on s
           ∧ (d ∈ rebuilt
              ∨ ∃ j s', j < i ∧ l !! j = Some s'
                        ∧ decided (decisions m force rebuilt l) j = true
                        ∧ target s' = d).
Proof.
  revert rebuilt i.
  induction l as [|s0 l IH]; intros rebuilt i Hi; [done|].
  destruct i as [|i]; simpl in Hi.
  - simplify_eq. unfold decided at 1. simpl. rewrite should_run_spec.
    split.
    + intros [?|[?|(d & ? & ?)]]; [by left|by right; left|].
      right; right. exists d. by split; [|left].
    + intros [?|[?|(d & ? & [?|(j & ? & ? & _)])]];
        [by left|by right; left| |lia].
      right; right. by exists d.
  - unfold decided at 1. simpl. fold (decided
      (decisions m force
         (if should_run m force rebuilt s0 then rebuilt ∪ {[target s0]}
          else rebuilt) l) i).
    rewrite (IH _ i Hi).
    apply or_iff_compat_l, or_iff_compat_l.
    split; intros (d & Hd & Hcase); exists d; (split; [done|]).
    + destruct Hcase as [Hin|(j & s' & ? & ? & ? & ?)].
      * destruct (should_run m force rebuilt s0) eqn:Hb; [|by left].
        apply elem_of_union in Hin as [?| ->%elem_of_singleton]; [by left|].
        right. exists 0, s0. split_and!; [lia|done| |done].
        unfold decided. simpl. done.
      * right. exists (S j), s'. split_and!; [lia|done| |done].
        unfold decided. simpl. done.
    + destruct Hcase as [Hin|(j & s' & Hj & Hl & Hdec & Ht)].
      * left. destruct (should_run m force rebuilt s0); set_solver.
      * destruct j as [|j]; simpl in Hl.
        -- simplify_eq. unfold decided in Hdec. simpl in Hdec.
           rewrite Hdec. left. set_solver.
        -- right. exists j, s'. split_and!; [lia|done| |done].
           unfold decided in *. simpl in Hdec. done.
Qed.

(** ** Cleanup *)

Lemma calls_of_app tr1 tr2 : calls_of (tr1 ++ tr2) = calls_of tr1 ++ calls_of tr2.
Proof. apply omap_app. Qed.

Lemma cleanup_item_stale name :
  cleanup_item name
  = if is_stale name then (do log (MsgCleaning name) then remove_item name)
    else ret tt.
Proof.
  unfold cleanup_item, is_stale.
  by destruct (endswith name ".tmp"),
    (endswith name "_old" || endswith name "_building" || startswith name "_").
Qed.

Lemma for_each_cleanup_item names s d :
  out_dir (world s) = Some d →
  ∃ s' d',
    for_each cleanup_item names s = (Ret tt, s')
    ∧ out_dir (world s') = Some d'
    ∧ clock (world s') = clock (world s)
    ∧ calls_of (trace s') = calls_of (trace s)
    ∧ ∀ n, d' !! n
           = if bool_decide (n ∈ names) && is_stale n then None else d !! n.
Proof.
  revert s d. induction names as [|name names IH]; intros s d Hd.
  - exists s, d. by split_and!.
  - simpl. rewrite cleanup_item_stale.
    destruct (is_stale name) eqn:Hst.
    + unfold bind at 1 2, log, emit, remove_item, set_out_dir. simpl.
      rewrite Hd. simpl.
      set (s1 := mkMachine _ _).
      destruct (IH s1 (delete name d)) as (s' & d' & -> & Hout & Hclk & Hcalls & Hlook).
      { unfold s1. simpl. unfold rmtree, unlink. by destruct (is_dir d name). }
      exists s', d'. split_and!; try done.
      * unfold s1 in Hcalls. simpl in Hcalls.
        by rewrite Hcalls, calls_of_app, app_nil_r.
      * intros n. rewrite Hlook.
        destruct (decide (n = name)) as [->|Hne].
        -- rewrite lookup_delete_eq, Hst.
           rewrite (bool_decide_eq_true_2 (name ∈ name :: names)) by left.
           simpl. by destruct (bool_decide _).
        -- rewrite lookup_delete_ne by done.
           rewrite (bool_decide_ext (n ∈ name :: names) (n ∈ names)); [done|].
           rewrite elem_of_cons. naive_solver.
    + unfold bind at 1, ret at 1.
      destruct (IH s d Hd) as (s' & d' & -> & Hout & Hclk & Hcalls & Hlook).
      exists s', d'. split_and!; try done.
      intros n. rewrite Hlook.
      destruct (decide (n = name)) as [->|Hne].
      * rewrite Hst, !andb_false_r. done.
      * rewrite (bool_decide_ext (n ∈ name :: names) (n ∈ names)); [done|].
        rewrite elem_of_cons. naive_solver.
Qed.

(** [cleanup_stale_artifacts] returns, having removed exactly the stale
    entries, and invokes no step. *)
Lemma cleanup_stale_artifacts_spec s :
  ∃ s',
    cleanup_stale_artifacts s = (Ret tt, s')
    ∧ out_dir (world s') = cleaned <$> out_dir (world s)
    ∧ clock (world s') = clock (world s)
    ∧ calls_of (trace s') = calls_of (trace s).
Proof.
  unfold cleanup_stale_artifacts.
  destruct (out_dir (world s)) as [d|] eqn:Hd.
  - destruct (for_each_cleanup_item (map_to_list d).*1 s d Hd)
      as (s' & d' & -> & Hout & Hclk & Hcalls & Hlook).
    exists s'. split_and!; try done.
    rewrite Hout. simpl. f_equal. apply map_eq. intros n.
    rewrite Hlook. unfold cleaned.
    destruct (d !! n) as [x|] eqn:Hn.
    + rewrite bool_decide_eq_true_2.
      2:{ apply list_elem_of_fmap. exists (n, x).
          split; [done|by apply elem_of_map_to_list]. }
      simpl. destruct (is_stale n) eqn:Hst; symmetry.
      * apply map_lookup_filter_None. right. intros x' _. simpl. congruence.
      * apply map_lookup_filter_Some. done.
    + destruct (_ && _); symmetry; apply map_lookup_filter_None; by left.
  - exists s. by rewrite Hd.
Qed.

Lemma cleaned_lookup d n :
  cleaned d !! n = if is_stale n then None else d !! n.
Proof.
  unfold cleaned. destruct (is_stale n) eqn:Hst.
  - apply map_lookup_filter_None. right. intros x _. simpl. congruence.
  - destruct (d !! n) as [x|] eqn:Hn.
    + by apply map_lookup_filter_Some.
    + apply map_lookup_filter_None. by left.
Qed.

(** ** The manifest store *)

Lemma MANIFEST_TMP_ne : MANIFEST_TMP ≠ MANIFEST_FILE.
Proof. by compute. Qed.

Lemma is_stale_MANIFEST_FILE : is_stale MANIFEST_FILE = false.
Proof. by vm_compute. Qed.

Lemma is_stale_MANIFEST_TMP : is_stale MANIFEST_TMP = true.
Proof. by vm_compute. Qed.

Lemma load_manifest_world s : (load_manifest s).2 = s.
Proof.
  unfold load_manifest.
  by destruct (out_dir (world s) ≫= _) as [[[]|]|].
Qed.

(** [save_manifest], call by call. *)
Lemma run_ops_save_ops m od :
  let d := default ∅ od in
  run_ops (save_ops m) od
  = match d !! MANIFEST_TMP with
    | Some (Dir _) => (Raise (IsADirectoryError MANIFEST_TMP), Some d)
    | _ =>
        match d !! MANIFEST_FILE with
        | Some (Dir _) =>
            (Raise (IsADirectoryError MANIFEST_FILE),
             Some (<[MANIFEST_TMP := File (Json m)]> d))
        | _ =>
            (Ret tt,
             Some (<[MANIFEST_FILE := File (Json m)]> (delete MANIFEST_TMP d)))
        end
    end.
Proof.
  intros d.
  assert (Hmk : fs_step Mkdir od = Ret (Some d)) by by destruct od.
  unfold save_ops, run_ops. rewrite Hmk. cbn [fs_step].
  destruct (d !! MANIFEST_TMP) as [[c|ms]|] eqn:Htmp; [|done|].
  - rewrite lookup_insert_eq, insert_insert_eq.
    rewrite lookup_insert_ne by apply MANIFEST_TMP_ne.
    rewrite delete_insert_eq.
    by destruct (d !! MANIFEST_FILE) as [[|]|].
  - rewrite lookup_insert_eq, insert_insert_eq.
    rewrite lookup_insert_ne by apply MANIFEST_TMP_ne.
    rewrite delete_insert_eq.
    by destruct (d !! MANIFEST_FILE) as [[|]|].
Qed.

(** When [save_manifest] returns, the manifest's path holds the document,
    the staging path is free, and nothing else has changed. *)
Lemma save_manifest_ret m s s' :
  save_manifest m s = (Ret tt, s') →
  persisted (world s') = Some (File (Json m))
  ∧ staged (world s') = None
  ∧ clock (world s') = clock (world s)
  ∧ trace s' = trace s
  ∧ ∀ n, n ≠ MANIFEST_FILE → n ≠ MANIFEST_TMP →
         out_dir (world s') ≫= (.!! n) = out_dir (world s) ≫= (.!! n).
Proof.
  unfold save_manifest. rewrite run_ops_save_ops. cbv zeta.
  destruct (default ∅ (out_dir (world s)) !! MANIFEST_TMP) as [[|]|] eqn:Htmp;
    [|done|];
    (destruct (default ∅ (out_dir (world s)) !! MANIFEST_FILE) as [[|]|];
     intros [= <-]; unfold persisted, staged; simpl;
     (split_and!;
      [apply lookup_insert_eq
      |rewrite lookup_insert_ne by (apply not_eq_sym, MANIFEST_TMP_ne);
       apply lookup_delete_eq
      |done|done
      |intros n ??;
       rewrite lookup_insert_ne, lookup_delete_ne by done;
       by destruct (out_dir (world s))])).
Qed.

(** When [save_manifest] raises, the manifest's path is as it was. *)
Lemma save_manifest_raise m s e s' :
  save_manifest m s = (Raise e, s') →
  persisted (world s') = persisted (world s).
Proof.
  unfold save_manifest. rewrite run_ops_save_ops. cbv zeta.
  unfold persisted.
  destruct (default ∅ (out_dir (world s)) !! MANIFEST_TMP) as [[|]|] eqn:Htmp.
  2:{ intros [= <- <-]. simpl. by destruct (out_dir (world s)). }
  all: destruct (default ∅ (out_dir (world s)) !! MANIFEST_FILE) as [[|]|] eqn:Hm;
    intros [= <- <-]; simpl;
    rewrite lookup_insert_ne by apply MANIFEST_TMP_ne;
    by destruct (out_dir (world s)).
Qed.

(** ** The executor's loop *)

(** One iteration of the loop. *)
Lemma run_steps_cons sid tgt fn plan m s :
  run_steps ((sid, tgt, fn) :: plan) m s
  = let w1 := (fn (world s)).1 in
    let tr1 := trace s ++ [Log (MsgStep sid tgt)] ++ [Called sid] in
    match (fn (world s)).2 with
    | Some e => (Ret (false, m), mkMachine w1 (tr1 ++ [Log (MsgFailed sid e)]))
    | None =>
        let elapsed := (clock w1 - clock (world s))%Z in
        let m' := <[sid := Entry (clock w1) elapsed]> m in
        match save_manifest m' (mkMachine w1 tr1) with
        | (Ret _, s2) =>
            run_steps plan m'
              (mkMachine (world s2) (trace s2 ++ [Log (MsgDone elapsed)]))
        | (Raise e, s2) => (Raise e, s2)
        end
    end.
Proof.
  cbn [run_steps]. unfold bind, log, emit, now, call. simpl.
  destruct (fn (world s)) as [w1 [e|]] eqn:Hfn; simpl;
    rewrite <- !app_assoc; simpl; [done|].
  by destruct (save_manifest _ _) as [[[]|] ?].
Qed.

(** The loop over [l1 ++ l2] is the loop over [l1], then over [l2] if the
    first ran to its end. *)
Lemma run_steps_app l1 l2 m s :
  run_steps (l1 ++ l2) m s
  = match run_steps l1 m s with
    | (Ret (true, m1), s1) => run_steps l2 m1 s1
    | other => other
    end.
Proof.
  revert m s. induction l1 as [|[[sid tgt] fn] l1 IH]; intros m s; [done|].
  rewrite <- app_comm_cons, !run_steps_cons. cbv zeta.
  destruct (fn (world s)).2; [done|].
  destruct (save_manifest _ _) as [[[]|] ?]; [|done].
  apply IH.
Qed.

(** The loop running to its end: every action was invoked, in order; the
    dictionary gained the ids of the steps and kept its other entries; and
    if there was a step at all, the manifest's path holds that dictionary
    and the staging path is free. *)
Lemma run_steps_finished l m s m' s' :
  run_steps l m s = (Ret (true, m'), s') →
  calls_of (trace s') = calls_of (trace s) ++ (item_id <$> l)
  ∧ dom m' = dom m ∪ list_to_set (item_id <$> l)
  ∧ (∀ id, id ∉ item_id <$> l → m' !! id = m !! id)
  ∧ (l = [] → m' = m ∧ s' = s)
  ∧ (l ≠ [] → persisted (world s') = Some (File (Json m'))
              ∧ staged (world s') = None).
Proof.
  revert m s. induction l as [|[[sid tgt] fn] l IH]; intros m s Hrun.
  - simpl in Hrun. unfold ret in Hrun. simplify_eq.
    split_and!; try done; [by rewrite app_nil_r|set_solver].
  - rewrite run_steps_cons in Hrun. cbv zeta in Hrun.
    destruct (fn (world s)).2; [done|].
    destruct (save_manifest _ _) as [[[]|] s2] eqn:Hsave; [|done].
    apply save_manifest_ret in Hsave as (Hp & Hst & _ & Htr & _).
    apply IH in Hrun as (Hcalls & Hdom & Hother & Hnil & Hcons).
    simpl in *. split_and!.
    + rewrite Hcalls, Htr, !calls_of_app. simpl.
      by rewrite app_nil_r, <- app_assoc.
    + rewrite Hdom, dom_insert_L. unfold item_id at 2. simpl. set_solver.
    + intros id [Hne Hid]%not_elem_of_cons.
      rewrite (Hother id Hid). by rewrite lookup_insert_ne.
    + done.
    + intros _. destruct l as [|it l].
      * by destruct Hnil as [-> ->].
      * by apply Hcons.
Qed.

(** The loop returning early: some step's action raised, after the steps
    before it had completed; nothing was invoked or written after it. *)
Lemma run_steps_failed l m s m' s' :
  run_steps l m s = (Ret (false, m'), s') →
  ∃ done it rest sk e,
    l = done ++ it :: rest
    ∧ run_steps done m s = (Ret (true, m'), sk)
    ∧ (item_func it (world sk)).2 = Some e
    ∧ s' = mkMachine (item_func it (world sk)).1
             (trace sk ++ [Log (MsgStep (item_id it) (item_target it))]
                ++ [Called (item_id it)]
                ++ [Log (MsgFailed (item_id it) e)]).
Proof.
  revert m s. induction l as [|[[sid tgt] fn] l IH]; intros m s Hrun; [done|].
  rewrite run_steps_cons in Hrun. cbv zeta in Hrun.
  destruct (fn (world s)).2 as [e|] eqn:Hfn.
  - simplify_eq. exists [], (sid, tgt, fn), l, s, e.
    split_and!; try done. by rewrite <- !app_assoc.
  - destruct (save_manifest _ _) as [[[]|] s2] eqn:Hsave; [|done].
    apply IH in Hrun as (done & it & rest & sk & e & -> & Hdone & He & ->).
    exists ((sid, tgt, fn) :: done), it, rest, sk, e.
    split_and!; try done.
    rewrite run_steps_cons. cbv zeta. by rewrite Hfn, Hsave.
Qed.

(** The converse: a step whose action raises ends the loop there. *)
Lemma run_steps_fails done it rest m s m1 sk e :
  run_steps done m s = (Ret (true, m1), sk) →
  (item_func it (world sk)).2 = Some e →
  run_steps (done ++ it :: rest) m s
  = (Ret (false, m1),
     mkMachine (item_func it (world sk)).1
       (trace sk ++ [Log (MsgStep (item_id it) (item_target it))]
          ++ [Called (item_id it)]
          ++ [Log (MsgFailed (item_id it) e)])).
Proof.
  intros Hdone He. rewrite run_steps_app, Hdone.
  destruct it as [[sid tgt] fn]. rewrite run_steps_cons. cbv zeta.
  unfold item_func in He. simpl in He. rewrite He.
  by rewrite <- !app_assoc.
Qed.

(** ** The reporter *)

Section Executor.

Variable query : string → node → option exn.

(** The reporter's outcome depends on the world only, and the reporter
    leaves the machine as it found it. *)
Lemma summarize_spec t s :
  summarize query t s = ((summarize query t (mkMachine (world s) [])).1, s).
Proof.
  unfold summarize. simpl.
  destruct (out_dir (world s) ≫= _) as [n|]; [|done].
  by destruct (query t.1 n).
Qed.

Lemma for_each_summarize tables s :
  for_each (summarize query) tables s
  = ((for_each (summarize query) tables (mkMachine (world s) [])).1, s).
Proof.
  induction tables as [|t tables IH]; [done|].
  cbn [for_each]. unfold bind.
  rewrite (summarize_spec t s).
  assert (Hs0 : (summarize query t (mkMachine (world s) [])).2
                = mkMachine (world s) []) by by rewrite summarize_spec.
  destruct (summarize query t (mkMachine (world s) [])) as [[[]|e] s0];
    simpl in *; subst s0; [by rewrite IH|done].
Qed.

(** The reporter is invoked once, changes nothing in the world, and returns
    or raises as [summary_outcome] says. *)
Lemma run_summary_spec s :
  run_summary query s
  = (summary_outcome query (world s),
     mkMachine (world s) (trace s ++ [Reported])).
Proof.
  unfold summary_outcome, run_summary, bind, emit. cbn [world trace app].
  rewrite (for_each_summarize _ (mkMachine _ (trace s ++ _))).
  rewrite (for_each_summarize _ (mkMachine _ [Reported])).
  cbn [world fst snd].
  by destruct (for_each _ _ _) as [[[]|] ?].
Qed.

(** [log(msg); print(); run_summary(); return True] *)
Lemma report_spec msg s :
  (do log msg then do run_summary query then ret true) s
  = (reported query (world s),
     mkMachine (world s) (trace s ++ [Log msg] ++ [Reported])).
Proof.
  unfold bind at 1, log, emit. unfold bind. rewrite run_summary_spec.
  cbn [world trace]. rewrite <- app_assoc. unfold reported.
  by destruct (summary_outcome _ _) as [[]|].
Qed.

(** ** The phases of [run_build] *)

Lemma lookup_default_empty (od : option dir) (n : string) :
  default ∅ od !! n = od ≫= (.!! n).
Proof. by destruct od. Qed.

(** Planning cleans the output directory, leaves the manifest's path alone,
    frees the staging path, and invokes no step. *)
Lemma plan_phase_spec reg requested full s :
  ∃ s1,
    cleanup_stale_artifacts s = (Ret tt, s1)
    ∧ out_dir (world s1) = cleaned <$> out_dir (world s)
    ∧ calls_of (trace s1) = calls_of (trace s)
    ∧ persisted (world s1) = persisted (world s)
    ∧ staged (world s1) = None
    ∧ plan_phase reg requested full s
      = match (if full then (Ret ∅, s1) else load_manifest s1) with
        | (Ret m, _) =>
            (Ret (m, determine_steps_to_run reg m requested full), s1)
        | (Raise e, _) => (Raise e, s1)
        end.
Proof.
  destruct (cleanup_stale_artifacts_spec s) as (s1 & Hc & Hout & _ & Hcalls).
  exists s1. split_and!; try done.
  - unfold persisted. rewrite Hout.
    destruct (out_dir (world s)) as [d|]; [|done]. simpl.
    by rewrite cleaned_lookup, is_stale_MANIFEST_FILE.
  - unfold staged. rewrite Hout.
    destruct (out_dir (world s)) as [d|]; [|done]. simpl.
    by rewrite cleaned_lookup, is_stale_MANIFEST_TMP.
  - unfold plan_phase, bind. rewrite Hc. destruct full; [done|].
    pose proof (load_manifest_world s1) as Hl.
    destruct (load_manifest s1) as [[m|e] s1']; simpl in Hl; by subst s1'.
Qed.

Lemma start_phase_spec plan s :
  start_phase plan s
  = (Ret tt,
     mkMachine (mkWorld (Some (default ∅ (out_dir (world s)))) (clock (world s)))
               (trace s ++ [Log (MsgRunning (length plan))])).
Proof. done. Qed.

Lemma start_phase_ret plan s r s2 :
  start_phase plan s = (r, s2) →
  r = Ret tt
  ∧ calls_of (trace s2) = calls_of (trace s)
  ∧ persisted (world s2) = persisted (world s)
  ∧ staged (world s2) = staged (world s).
Proof.
  rewrite start_phase_spec. intros [= <- <-]. split_and!; try done.
  - simpl. by rewrite calls_of_app, app_nil_r.
  - unfold persisted. simpl. apply lookup_default_empty.
  - unfold staged. simpl. apply lookup_default_empty.
Qed.

(** The dry-run listing only logs. *)
Lemma for_each_log_dry_step m plan s :
  ∃ tr, for_each (log_dry_step m) plan s
        = (Ret tt, mkMachine (world s) (trace s ++ tr))
        ∧ calls_of tr = [].
Proof.
  revert s. induction plan as [|it plan IH]; intros s.
  - exists []. by rewrite app_nil_r; destruct s.
  - cbn [for_each]. unfold bind, log_dry_step, log, emit.
    edestruct IH as (tr & -> & Htr). eexists (_ :: tr).
    cbn [world trace]. by rewrite <- app_assoc.
Qed.

(** [run_build] as the sequence of its phases. *)
Lemma run_build_phases reg requested full dry s :
  run_build query reg requested full dry s
  = match plan_phase reg requested full s with
    | (Raise e, s1) => (Raise e, s1)
    | (Ret (m, plan), s1) =>
        if bool_decide (plan = []) then
          (do log MsgNothingToDo then do run_summary query then ret true) s1
        else if dry then
          (do log MsgDryRun then do for_each (log_dry_step m) plan
           then ret true) s1
        else
          match start_phase plan s1 with
          | (Raise e, s2) => (Raise e, s2)
          | (Ret _, s2) =>
              match run_steps plan m s2 with
              | (Ret (true, _), s3) =>
                  (do log MsgComplete then do run_summary query
                   then ret true) s3
              | (Ret (false, _), s3) => (Ret false, s3)
              | (Raise e, s3) => (Raise e, s3)
              end
          end
    end.
Proof.
  destruct (plan_phase_spec reg requested full s)
    as (s1 & Hc & _ & _ & _ & _ & ->).
  unfold run_build. unfold bind at 1. rewrite Hc. unfold bind at 1.
  destruct (if full then (Ret ∅, s1) else load_manifest s1) as [[m|e] s1'] eqn:Hl.
  - assert ((if full then ret ∅ else load_manifest) s1 = (Ret m, s1)) as ->.
    { destruct full; [by simplify_eq|].
      pose proof (load_manifest_world s1) as Hw. rewrite Hl in *.
      simpl in Hw. by subst. }
    case_bool_decide; [done|]. destruct dry; [done|].
    rewrite start_phase_spec.
    unfold bind at 1. unfold log at 1, emit. unfold bind at 1.
    unfold mkdir_output at 1, set_out_dir. cbn [world trace].
    unfold bind at 1.
    by destruct (run_steps _ _ _) as [[[[] ?]|] ?].
  - assert ((if full then ret ∅ else load_manifest) s1 = (Raise e, s1)) as ->.
    { destruct full; [by simplify_eq|].
      pose proof (load_manifest_world s1) as Hw. rewrite Hl in *.
      simpl in Hw. by subst. }
    done.
Qed.

(** A dry run ends in the world that cleanup left, having only logged
    or reported. *)
Lemma run_build_dry reg requested full s :
  ∃ s1 r tr,
    out_dir (world s1) = cleaned <$> out_dir (world s)
    ∧ calls_of (trace s1) = calls_of (trace s)
    ∧ run_build query reg requested full true s
      = (r, mkMachine (world s1) (trace s1 ++ tr))
    ∧ calls_of tr = [].
Proof.
  rewrite run_build_phases.
  destruct (plan_phase_spec reg requested full s)
    as (s1 & _ & Hout & Hcalls & _ & _ & ->).
  exists s1.
  destruct (if full then (Ret ∅, s1) else load_manifest s1) as [[m|e] ?].
  - case_bool_decide.
    + rewrite report_spec. by eexists _, _.
    + unfold bind at 1, log, emit. unfold bind at 1.
      edestruct (for_each_log_dry_step m) as (tr & -> & Htr).
      exists (Ret true), (Log MsgDryRun :: tr). split_and!; try done.
      unfold ret. cbn [world trace]. by rewrite <- app_assoc.
  - exists (Raise e), []. split_and!; try done.
    rewrite app_nil_r. by destruct s1.
Qed.

End Executor.

(** ** Facts used by several claims *)

Lemma load_manifest_ret s m s' :
  load_manifest s = (Ret m, s') →
  s' = s
  ∧ (persisted (world s) = Some (File (Json m))
     ∨ persisted (world s) = None ∧ m = ∅).
Proof.
  unfold load_manifest, persisted.
  destruct (out_dir (world s) ≫= _) as [[[]|]|]; intros [= <- <-]; eauto.
Qed.

Lemma load_manifest_persisted s m :
  persisted (world s) = Some (File (Json m)) → load_manifest s = (Ret m, s).
Proof. unfold load_manifest, persisted. by intros ->. Qed.

(** What a returned plan phase tells about the machine it returns. *)
Lemma plan_phase_ret reg requested full s m0 plan s1 :
  plan_phase reg requested full s = (Ret (m0, plan), s1) →
  plan = determine_steps_to_run reg m0 requested full
  ∧ (if full then m0 = ∅ else load_manifest s1 = (Ret m0, s1))
  ∧ out_dir (world s1) = cleaned <$> out_dir (world s)
  ∧ calls_of (trace s1) = calls_of (trace s)
  ∧ persisted (world s1) = persisted (world s)
  ∧ staged (world s1) = None.
Proof.
  destruct (plan_phase_spec reg requested full s)
    as (s1' & _ & Hout & Hcalls & Hp & Hst & ->).
  destruct full.
  - intros [= <- <- <-]. by split_and!.
  - destruct (load_manifest s1') as [[m|e] sl] eqn:Hl; [|done].
    intros [= <- <- <-]. split_and!; try done.
    apply load_manifest_ret in Hl as Hl'. destruct Hl' as [-> _]. done.
Qed.

Lemma run_steps_prefix l1 l2 m s m' s' :
  run_steps (l1 ++ l2) m s = (Ret (true, m'), s') →
  ∃ m1 s1, run_steps l1 m s = (Ret (true, m1), s1).
Proof.
  rewrite run_steps_app.
  destruct (run_steps l1 m s) as [[[[] m1]|] s1]; [eauto|done|done].
Qed.

Lemma select_from_elem {A} (sel : nat → bool) (l : list A) k i x :
  l !! i = Some x → sel (k + i) = true → x ∈ select_from sel k l.
Proof.
  revert k i. induction l as [|y l IH]; intros k i Hi Hsel; [done|].
  destruct i as [|i]; simpl in *.
  - simplify_eq. rewrite Nat.add_0_r in Hsel. rewrite Hsel. by left.
  - assert (x ∈ select_from sel (S k) l).
    { apply (IH (S k) i Hi). by rewrite <- Nat.add_succ_comm in Hsel. }
    destruct (sel k); [by right|done].
Qed.

(** A step without an entry in the manifest is always planned. *)
Lemma plan_covers_new reg m requested s :
  s ∈ reg → m !! step_id s = None →
  step_id s ∈ item_id <$> determine_steps_to_run reg m requested false.
Proof.
  intros [i Hi]%list_elem_of_lookup Hnew.
  unfold determine_steps_to_run. rewrite fold_walk_step. simpl.
  apply list_elem_of_fmap. exists (item_of s). split; [done|].
  apply list_elem_of_fmap. exists s. split; [done|].
  eapply select_from_elem; [done|]. simpl.
  apply (decisions_spec _ _ _ _ _ _ Hi). by left.
Qed.

(** With every step in the manifest and nothing requested, the walk
    selects nothing. *)
Lemma plan_empty_when_all_built reg m :
  (∀ s, s ∈ reg → is_Some (m !! step_id s)) →
  determine_steps_to_run reg m [] false = [].
Proof.
  intros Hall. unfold determine_steps_to_run, force_targets. simpl.
  assert (Hgen : ∀ l, (∀ s, s ∈ l → is_Some (m !! step_id s)) →
            fold_left (walk_step m ∅) l (∅, []) = (∅, [])).
  { induction l as [|s l IH]; intros Hl; [done|]. simpl.
    assert (Hno : should_run m ∅ ∅ s = false).
    { apply not_true_is_false. rewrite should_run_spec.
      intros [Hnone|[[]%not_elem_of_empty|(d & _ & []%not_elem_of_empty)]].
      destruct (Hl s) as [x Hx]; [by left|]. congruence. }
    unfold walk_step at 2. simpl. rewrite Hno. apply IH.
    intros s' ?. apply Hl. by right. }
  by rewrite Hgen.
Qed.

Lemma unknown_target_Some reg targets t :
  unknown_target reg targets = Some t →
  t ∈ targets ∧ t ∉ target <$> reg.
Proof.
  unfold unknown_target. intros [Hin Ht]%find_some.
  apply bool_decide_eq_true in Ht. rewrite elem_of_list_to_set in Ht.
  split; [by apply list_elem_of_In|done].
Qed.

Lemma unknown_target_None reg targets :
  unknown_target reg targets = None ↔ ∀ t, t ∈ targets → t ∈ target <$> reg.
Proof.
  unfold unknown_target. split.
  - intros Hnone t Hin%list_elem_of_In.
    pose proof (find_none _ _ Hnone t Hin) as Hf. simpl in Hf.
    apply bool_decide_eq_false in Hf.
    apply dec_stable in Hf. by rewrite elem_of_list_to_set in Hf.
  - intros Hall. destruct (find _ _) as [t|] eqn:Hf; [|done].
    apply find_some in Hf as [Hin%list_elem_of_In Ht].
    apply bool_decide_eq_true in Ht. rewrite elem_of_list_to_set in Ht.
    by destruct Ht; apply Hall.
Qed.

(* ===================================================================== *)
(** * The claims of the specification                                     *)
(* ===================================================================== *)

(** C3. For every registry and every target [t], the search of
    [get_downstream_targets] ends within its fuel (and any larger fuel
    gives the same set), also on a cyclic graph; its result is exactly the
    set of targets other than [t] that depend on [t] directly or
    transitively; and, being a set, it lists each of them once. *)
Theorem get_downstream_targets_closure (reg : list Step) (t : string) :
  (∃ visited,
      (∀ fuel, bfs_fuel (get_dependency_graph reg) t ≤ fuel →
         bfs_loop elements (get_dependency_graph reg) fuel ∅ [t]
         = Some visited)
      ∧ get_downstream_targets reg t = visited ∖ {[t]})
  ∧ (∀ x, x ∈ get_downstream_targets reg t
          ↔ x ≠ t ∧ tc (depends_directly reg) x t)
  ∧ NoDup (elements (get_downstream_targets reg t)).
Proof.
  split_and!.
  - destruct (get_downstream_targets_visited reg t) as (visited & Hv & Heq).
    exists visited. split; [|done].
    intros fuel Hle. by eapply bfs_loop_more_fuel.
  - apply elem_of_get_downstream_targets.
  - apply NoDup_elements.
Qed.

Lemma get_downstream_targets_closure_diamond :
  (∃ visited,
      (∀ fuel, bfs_fuel (get_dependency_graph diamond) "a" ≤ fuel →
         bfs_loop elements (get_dependency_graph diamond) fuel ∅ ["a"]
         = Some visited)
      ∧ get_downstream_targets diamond "a" = visited ∖ {["a"]})
  ∧ (∀ x, x ∈ get_downstream_targets diamond "a"
          ↔ x ≠ "a" ∧ tc (depends_directly diamond) x "a")
  ∧ NoDup (elements (get_downstream_targets diamond "a")).
Proof. exact (get_downstream_targets_closure diamond "a"). Defined.

(** In the diamond, d is downstream of a once; on the cycle the search
    ends, and x is not listed as downstream of itself. *)
Example get_downstream_targets_diamond :
  get_downstream_targets diamond "a" = {["b"; "c"; "d"]}
  ∧ length (elements (get_downstream_targets diamond "a")) = 3.
Proof. by vm_compute. Qed.

Example get_downstream_targets_cyclic :
  get_downstream_targets cyclic "x" = {["y"]}.
Proof. by vm_compute. Qed.

(** C1. With [full_rebuild] the plan is the whole registry, in order,
    whatever the manifest.  Without it the plan is the registry restricted
    to the positions [sel] marks, in order, where a position is marked
    exactly when its step (a) has no entry in the manifest, or (b) builds a
    requested target or a target that depends on one through a chain of
    one or more [depends_on], or (c) depends on the target of a step at an
    earlier marked position. *)
Theorem determine_steps_to_run_selects (reg : list Step) (m : manifest)
    (requested : list string) :
  determine_steps_to_run reg m requested true = item_of <$> reg
  ∧ ∃ sel : nat → bool,
      determine_steps_to_run reg m requested false
      = item_of <$> select_from sel 0 reg
      ∧ ∀ i s, reg !! i = Some s →
          (sel i = true
           ↔ m !! step_id s = None
             ∨ (∃ t, t ∈ requested
                     ∧ (target s = t ∨ tc (depends_directly reg) (target s) t))
             ∨ (∃ j s', j < i ∧ reg !! j = Some s' ∧ sel j = true
                        ∧ target s' ∈ depends_on s)).
Proof.
  split; [done|].
  exists (decided (decisions m (force_targets reg requested) ∅ reg)).
  split.
  - unfold determine_steps_to_run. by rewrite fold_walk_step.
  - intros i s Hi. rewrite (decisions_spec _ _ _ _ _ _ Hi).
    rewrite elem_of_force_targets.
    assert (Hb : (∃ t, t ∈ requested
                       ∧ (target s = t
                          ∨ target s ∈ get_downstream_targets reg t))
                 ↔ ∃ t, t ∈ requested
                        ∧ (target s = t
                           ∨ tc (depends_directly reg) (target s) t)).
    { split.
      - intros (t & Ht & [?|[_ ?]%elem_of_get_downstream_targets]);
          exists t; auto.
      - intros (t & Ht & [?|Htc]); exists t; (split; [done|]); [by left|].
        destruct (decide (target s = t)); [by left|].
        right. by apply elem_of_get_downstream_targets. }
    rewrite Hb. apply or_iff_compat_l, or_iff_compat_l. split.
    + intros (d & Hd & [[]%not_elem_of_empty|(j & s' & ? & ? & ? & <-)]).
      by exists j, s'.
    + intros (j & s' & ? & ? & ? & ?). exists (target s').
      split; [done|]. right. by exists j, s'.
Qed.

(** C1 on the chain with every step built and [t2] requested: step A is
    left out, since it has an entry, builds neither [t2] nor anything that
    depends on it, and comes first; step B is selected by (b); step C is
    selected by (c), after B; so the plan is B, C. *)
Lemma determine_steps_to_run_selects_chain :
  ∃ sel : nat → bool,
    determine_steps_to_run chain chain_built ["t2"] false
    = item_of <$> select_from sel 0 chain
    ∧ sel 0 = false ∧ sel 1 = true ∧ sel 2 = true
    ∧ item_id <$> determine_steps_to_run chain chain_built ["t2"] false
      = ["B"; "C"].
Proof.
  destruct (determine_steps_to_run_selects chain chain_built ["t2"])
    as [_ (sel & Hplan & Hsel)].
  assert (H1 : sel 1 = true).
  { apply (Hsel 1 (mkStep "B" "t2" ["t1"] (publish "t2" 3)) eq_refl).
    right; left. exists "t2". split; [apply list_elem_of_here|by left]. }
  assert (H2 : sel 2 = true).
  { apply (Hsel 2 (mkStep "C" "t3" ["t2"] (publish "t3" 5)) eq_refl).
    right; right. exists 1, (mkStep "B" "t2" ["t1"] (publish "t2" 3)).
    split_and!; [lia|done|done|apply list_elem_of_here]. }
  assert (H0 : sel 0 = false).
  { destruct (sel 0) eqn:E; [|done]. exfalso.
    apply (Hsel 0 (mkStep "A" "t1" [] (publish "t1" 7)) eq_refl) in E.
    assert (Hno : ∀ y, ¬ depends_directly chain "t1" y).
    { intros y (st & Hst & Ht & Hy). unfold chain in Hst.
      repeat (apply elem_of_cons in Hst as [->|Hst]);
        cbn [target depends_on] in Ht, Hy; try discriminate Ht.
      - by apply elem_of_nil in Hy.
      - by apply elem_of_nil in Hst. }
    cbn [step_id target depends_on] in E.
    destruct E as [E|[(t & Ht & [E|E])|(j & _ & Hj & _)]].
    - unfold chain_built in E. by rewrite lookup_insert_eq in E.
    - apply list_elem_of_singleton in Ht. subst t. discriminate E.
    - inversion E as [? ? Hd|? ? ? Hd _]; by apply Hno in Hd.
    - lia. }
  exists sel. split_and!; [done..|].
  rewrite Hplan. unfold chain. cbn [select_from fmap list_fmap].
  rewrite H0, H1, H2. reflexivity.
Defined.

(** On the registry of the repository with every step built, asking for
    [prices] plans it and what reads it, in registration order. *)
Example determine_steps_to_run_repo :
  let reg := steps (repo_registry (λ _, noop)) in
  let built : manifest :=
    list_to_map ((λ s, (step_id s, Entry 0 0)) <$> reg) in
  item_id <$> determine_steps_to_run reg built ["prices"] false
  = ["prices_v2"; "daily_aggs_v2"; "hundred_day_aggs_v1"]
  ∧ determine_steps_to_run reg built [] false = [].
Proof. split; by_evaluation. Qed.

(** The cascade and the manifest gate on the chain A, B, C. *)
Example determine_steps_to_run_cascade :
  item_id <$> determine_steps_to_run chain
                (<["A" := Entry 0 0]> (<["B" := Entry 0 0]> (<["C" := Entry 0 0]> ∅)))
                ["t1"] false = ["A"; "B"; "C"]
  ∧ item_id <$> determine_steps_to_run chain
                (<["A" := Entry 0 0]> (<["B" := Entry 0 0]> (<["C" := Entry 0 0]> ∅)))
                ["t2"] false = ["B"; "C"]
  ∧ item_id <$> determine_steps_to_run chain (<["A" := Entry 0 0]> ∅) [] false
    = ["B"; "C"]
  ∧ item_id <$> determine_steps_to_run chain
                (<["A" := Entry 0 0]> (<["C" := Entry 0 0]> ∅)) [] false
    = ["B"; "C"].
Proof. by vm_compute. Qed.

(** C4. [load_manifest] returns the empty mapping, and touches nothing,
    when there is no entry at the manifest's path.  [save_manifest] is the
    calls of [save_ops] and nothing else: it stages the whole document
    under [MANIFEST_FILE +:+ ".tmp"], an entry of the same directory, and
    renames it over [MANIFEST_FILE] as its last call.  It returns whenever
    no directory sits at either path, also when the output directory does
    not exist yet, and then it leaves the document at the manifest's path
    and no staging file.  Cut before its last call, or ended by an
    exception, it leaves the entry at the manifest's path as it was; cut
    just before its last call, the whole document is staged. *)
Theorem manifest_store_atomic :
  (∀ s, persisted (world s) = None → load_manifest s = (Ret ∅, s))
  ∧ (∀ m s, save_manifest m s
            = ((run_ops (save_ops m) (out_dir (world s))).1,
               mkMachine
                 (mkWorld (run_ops (save_ops m) (out_dir (world s))).2
                          (clock (world s)))
                 (trace s)))
  ∧ (∀ m s, ¬ is_directory (staged (world s)) →
            ¬ is_directory (persisted (world s)) →
       ∃ s', save_manifest m s = (Ret tt, s'))
  ∧ (∀ m od n, n < length (save_ops m) →
       (run_ops (take n (save_ops m)) od).2 ≫= (.!! MANIFEST_FILE)
       = od ≫= (.!! MANIFEST_FILE))
  ∧ (∀ m od, ¬ is_directory (od ≫= (.!! MANIFEST_TMP)) →
       (run_ops (take 3 (save_ops m)) od).1 = Ret tt
       ∧ (run_ops (take 3 (save_ops m)) od).2 ≫= (.!! MANIFEST_TMP)
         = Some (File (Json m)))
  ∧ (∀ m s e s', save_manifest m s = (Raise e, s') →
       persisted (world s') = persisted (world s))
  ∧ (∀ m s s', save_manifest m s = (Ret tt, s') →
       persisted (world s') = Some (File (Json m))
       ∧ staged (world s') = None
       ∧ ∀ n, n ≠ MANIFEST_FILE → n ≠ MANIFEST_TMP →
              out_dir (world s') ≫= (.!! n) = out_dir (world s) ≫= (.!! n)).
Proof.
  assert (Hmk : ∀ od, fs_step Mkdir od = Ret (Some (default ∅ od)))
    by by intros [].
  split_and!.
  - intros s Hp. unfold load_manifest. unfold persisted in Hp. by rewrite Hp.
  - intros m s. unfold save_manifest.
    by destruct (run_ops (save_ops m) (out_dir (world s))).
  - intros m s. unfold save_manifest, staged, persisted, is_directory.
    rewrite run_ops_save_ops. cbv zeta. rewrite !lookup_default_empty.
    destruct (out_dir (world s) ≫= (.!! MANIFEST_TMP)) as [[c|ms]|];
      destruct (out_dir (world s) ≫= (.!! MANIFEST_FILE)) as [[c'|ms']|];
      naive_solver.
  - intros m od n Hn. unfold save_ops in *. simpl in Hn.
    destruct n as [|[|[|[|n]]]]; [done| | | |lia]; cbn [take run_ops].
    + rewrite Hmk. simpl. apply lookup_default_empty.
    + rewrite Hmk. cbn [fs_step].
      destruct (default ∅ od !! MANIFEST_TMP) as [[|]|]; simpl;
        rewrite ?lookup_insert_ne by apply MANIFEST_TMP_ne;
        apply lookup_default_empty.
    + rewrite Hmk. cbn [fs_step].
      destruct (default ∅ od !! MANIFEST_TMP) as [[|]|]; simpl;
        rewrite ?lookup_insert_ne by apply MANIFEST_TMP_ne;
        apply lookup_default_empty.
  - intros m od Hdir. unfold save_ops. cbn [take run_ops].
    rewrite Hmk. cbn [fs_step].
    rewrite <- (lookup_default_empty od MANIFEST_TMP) in Hdir.
    simpl in Hdir.
    destruct (default ∅ od !! MANIFEST_TMP) as [[|]|]; simpl;
      [by rewrite lookup_insert_eq| |by rewrite lookup_insert_eq].
    destruct Hdir. by eexists.
  - apply save_manifest_raise.
  - intros m s s' Hs.
    apply save_manifest_ret in Hs as (? & ? & _ & _ & ?). done.
Qed.

(** C4 on the used output directory: cut before the rename, a save leaves
    the manifest of the earlier run in place; run to its end it returns,
    and the new document is at the manifest's path. *)
Lemma manifest_store_atomic_used :
  (run_ops (take 3 (save_ops ∅)) (out_dir (world used))).2
    ≫= (.!! MANIFEST_FILE)
  = Some (File (Json old_manifest))
  ∧ ∃ s', save_manifest ∅ used = (Ret tt, s')
          ∧ persisted (world s') = Some (File (Json ∅))
          ∧ staged (world s') = None.
Proof.
  destruct manifest_store_atomic as (_ & _ & Hret & Hcut & _ & _ & Hdone).
  split.
  - rewrite (Hcut ∅ (out_dir (world used)) 3); [reflexivity|simpl; lia].
  - destruct (Hret ∅ used) as [s' Hs'].
    + intros [ms Hms]. discriminate Hms.
    + intros [ms Hms]. discriminate Hms.
    + exists s'. destruct (Hdone ∅ used s' Hs') as (Hp & Hst & _). done.
Defined.

(** C6, as the code has it.  The decorator never fails: it appends the
    step at the end of the registry and its id at the end of the ids filed
    under its target, whether or not the id is already registered; so after
    registering an id that was present the ids of the registry repeat. *)
Theorem step_always_appends (sid tgt : string) (deps : list string)
    (fn : action) (r : Registry) :
  steps (step sid tgt deps fn r) = steps r ++ [mkStep sid tgt deps fn]
  ∧ target_to_steps (step sid tgt deps fn r) !! tgt
    = Some (default [] (target_to_steps r !! tgt) ++ [sid])
  ∧ (∀ t, t ≠ tgt →
       target_to_steps (step sid tgt deps fn r) !! t = target_to_steps r !! t)
  ∧ (sid ∈ step_id <$> steps r →
       ¬ NoDup (step_id <$> steps (step sid tgt deps fn r))).
Proof.
  unfold step. simpl. split_and!.
  - done.
  - apply lookup_insert_eq.
  - intros t Ht. by apply lookup_insert_ne.
  - intros Hin. rewrite fmap_app. simpl.
    intros [_ [Hdisj _]]%NoDup_app. apply (Hdisj sid Hin). by left.
Qed.

Lemma step_always_appends_twice :
  ¬ NoDup (step_id <$> steps (step "A" "a" [] noop
                                (step "A" "a" [] noop empty_registry))).
Proof.
  apply (step_always_appends "A" "a" [] noop (step "A" "a" [] noop empty_registry)).
  simpl. by left.
Defined.

(** C6, as stated, fails: registering the id "A" a second time is not
    rejected, and the registry then holds two steps with that id. *)
Lemma step_duplicate_accepted :
  step_id <$> steps (step "A" "b" ["a"] (failing "second")
                       (step "A" "a" [] noop empty_registry))
  = ["A"; "A"].
Proof. reflexivity. Qed.

Section Claims.

Variable query : string → node → option exn.

(** C10. [run_build] cleans the output directory before it looks at
    [dry_run]: after a dry run, whichever way it ends, the output directory
    is the one it found without the entries whose name ends with ".tmp",
    "_old" or "_building" or starts with "_", the other entries are as they
    were, and no step was invoked. *)
Theorem run_build_dry_run_cleans (reg : list Step) (requested : list string)
    (full : bool) (s : Machine) :
  let s' := (run_build query reg requested full true s).2 in
  out_dir (world s') = cleaned <$> out_dir (world s)
  ∧ (∀ name,
       out_dir (world s') ≫= (.!! name)
       = if endswith name ".tmp" || endswith name "_old"
            || endswith name "_building" || startswith name "_"
         then None else out_dir (world s) ≫= (.!! name))
  ∧ calls_of (trace s') = calls_of (trace s).
Proof.
  intros s'.
  assert (Hst : ∀ name,
    endswith name ".tmp" || endswith name "_old"
    || endswith name "_building" || startswith name "_" = is_stale name).
  { intros name. unfold is_stale.
    by destruct (endswith name ".tmp"), (endswith name "_old"),
                (endswith name "_building"). }
  assert (Hmain : out_dir (world s') = cleaned <$> out_dir (world s)
                  ∧ calls_of (trace s') = calls_of (trace s)).
  { destruct (run_build_dry query reg requested full s)
      as (s1 & r & tr & Hout & Hcalls & Hrun & Htr).
    subst s'. rewrite Hrun. simpl.
    by rewrite calls_of_app, Htr, app_nil_r. }
  destruct Hmain as [Hout Hcalls]. split_and!; [done| |done].
  intros name. rewrite Hout, Hst.
  destruct (out_dir (world s)) as [d|]; simpl; [apply cleaned_lookup|].
  by destruct (is_stale name).
Qed.

(** C2. Take a run that is not dry, whose plan is [done ++ it :: rest],
    in which the steps of [done] complete and the action of [it] then
    raises without having written the manifest's path itself.  Then
    [run_build] returns [False]; the actions invoked are those of [done]
    and of [it], and nothing follows the failure in the trace; the
    manifest's path holds the dictionary as it stood after [done] (the
    loaded one plus an entry for each id of [done] and for no other id),
    or is as the run found it when [done] is empty; and that dictionary was
    at the manifest's path right after each of the steps of [done]. *)
Theorem run_build_fail_fast (reg : list Step) (requested : list string)
    (full : bool) (s0 : Machine) (m0 : manifest) (plan : list plan_item)
    (s1 s2 : Machine) (done : list plan_item) (it : plan_item)
    (rest : list plan_item) (m1 : manifest) (sk : Machine) (e : exn) :
  plan_phase reg requested full s0 = (Ret (m0, plan), s1) →
  start_phase plan s1 = (Ret tt, s2) →
  plan = done ++ it :: rest →
  run_steps done m0 s2 = (Ret (true, m1), sk) →
  (item_func it (world sk)).2 = Some e →
  persisted (item_func it (world sk)).1 = persisted (world sk) →
  ∃ s',
    run_build query reg requested full false s0 = (Ret false, s')
    ∧ calls_of (trace s')
      = calls_of (trace s0) ++ (item_id <$> done) ++ [item_id it]
    ∧ last (trace s') = Some (Log (MsgFailed (item_id it) e))
    ∧ persisted (world s')
      = (if bool_decide (done = []) then persisted (world s0)
         else Some (File (Json m1)))
    ∧ dom m1 = dom m0 ∪ list_to_set (item_id <$> done)
    ∧ (∀ id, id ∉ item_id <$> done → m1 !! id = m0 !! id)
    ∧ (∀ j, 0 < j ≤ length done →
         ∃ mj sj,
           run_steps (take j done) m0 s2 = (Ret (true, mj), sj)
           ∧ persisted (world sj) = Some (File (Json mj))
           ∧ dom mj = dom m0 ∪ list_to_set (item_id <$> take j done)).
Proof.
  intros Hplan Hstart -> Hdone He Hframe.
  apply plan_phase_ret in Hplan as Hs1.
  destruct Hs1 as (_ & _ & _ & Hcalls1 & Hp1 & _).
  apply start_phase_ret in Hstart as Hs2.
  destruct Hs2 as (_ & Hcalls2 & Hp2 & _).
  apply run_steps_finished in Hdone as Hfin.
  destruct Hfin as (Hcalls & Hdom & Hother & Hnil & Hcons).
  eexists. split_and!.
  - rewrite run_build_phases, Hplan.
    rewrite bool_decide_eq_false_2 by by destruct done.
    rewrite Hstart, (run_steps_fails _ _ _ _ _ _ _ _ Hdone He). done.
  - simpl. rewrite !calls_of_app, Hcalls, Hcalls2, Hcalls1. simpl.
    by rewrite <- app_assoc.
  - cbn [trace]. rewrite !app_assoc. apply last_snoc.
  - simpl. rewrite Hframe. case_bool_decide as Hd.
    + destruct (Hnil Hd) as [_ ->]. by rewrite Hp2, Hp1.
    + by apply Hcons.
  - done.
  - done.
  - intros j [Hj1 Hj2].
    rewrite <- (take_drop j done) in Hdone.
    apply run_steps_prefix in Hdone as (mj & sj & Hj).
    exists mj, sj. split; [done|].
    apply run_steps_finished in Hj as (_ & Hdomj & _ & _ & Hconsj).
    split; [|done]. apply Hconsj.
    destruct done; simpl in *; [lia|]. by destruct j; [lia|].
Qed.

(** C9. In a run with [full_rebuild] the dictionary starts empty and the
    plan is the whole registry; once the first [i] steps (at least one)
    have completed, the manifest's path holds a document with an entry for
    each of their ids and for no other id, whatever it held before; and the
    run goes on from that state with the remaining steps. *)
Theorem full_rebuild_manifest (reg : list Step) (requested : list string)
    (s0 : Machine) (m0 : manifest) (plan : list plan_item) (s1 s2 : Machine)
    (i : nat) (mi : manifest) (si : Machine) :
  plan_phase reg requested true s0 = (Ret (m0, plan), s1) →
  start_phase plan s1 = (Ret tt, s2) →
  0 < i ≤ length reg →
  run_steps (take i plan) m0 s2 = (Ret (true, mi), si) →
  m0 = ∅
  ∧ plan = item_of <$> reg
  ∧ persisted (world si) = Some (File (Json mi))
  ∧ dom mi = list_to_set (step_id <$> take i reg)
  ∧ (∀ id, id ∉ step_id <$> take i reg → mi !! id = None)
  ∧ run_build query reg requested true false s0
    = match run_steps (drop i plan) mi si with
      | (Ret (true, _), s3) =>
          (do log MsgComplete then do run_summary query then ret true) s3
      | (Ret (false, _), s3) => (Ret false, s3)
      | (Raise e, s3) => (Raise e, s3)
      end.
Proof.
  intros Hplan Hstart [Hi1 Hi2] Hrun.
  apply plan_phase_ret in Hplan as Hs1.
  destruct Hs1 as (Hp & -> & _). unfold determine_steps_to_run in Hp.
  apply run_steps_finished in Hrun as Hfin.
  destruct Hfin as (_ & Hdom & Hother & _ & Hcons).
  assert (Hids : item_id <$> take i plan = step_id <$> take i reg).
  { rewrite Hp, <- fmap_take, <- list_fmap_compose. done. }
  rewrite Hids in *.
  split_and!; try done.
  - apply Hcons. rewrite Hp, <- fmap_take.
    destruct reg; simpl in *; [lia|]. by destruct i; [lia|].
  - rewrite Hdom, dom_empty_L. set_solver.
  - rewrite run_build_phases, Hplan.
    rewrite bool_decide_eq_false_2.
    2:{ rewrite Hp. destruct reg; simpl in *; [lia|done]. }
    rewrite Hstart. rewrite <- (take_drop i plan) at 1.
    by rewrite run_steps_app, Hrun.
Qed.

(** C8, as the code has it.  When the plan is empty, and when every
    planned step of a run that is not dry has completed, [run_build] logs
    and invokes the reporter as its last act.  The reporter leaves the world
    as it was, so the manifest is what the last step left; but
    [run_build] returns [True] only if the reporter returns: an exception
    of the reporter leaves [run_build] as that exception. *)
Theorem run_build_reports (reg : list Step) (requested : list string)
    (full : bool) (s0 : Machine) (m0 : manifest) (plan : list plan_item)
    (s1 : Machine) :
  plan_phase reg requested full s0 = (Ret (m0, plan), s1) →
  (plan = [] →
     ∀ dry, run_build query reg requested full dry s0
            = (reported query (world s1),
               mkMachine (world s1)
                 (trace s1 ++ [Log MsgNothingToDo] ++ [Reported])))
  ∧ (∀ s2 m' s3,
       plan ≠ [] →
       start_phase plan s1 = (Ret tt, s2) →
       run_steps plan m0 s2 = (Ret (true, m'), s3) →
       run_build query reg requested full false s0
       = (reported query (world s3),
          mkMachine (world s3) (trace s3 ++ [Log MsgComplete] ++ [Reported]))
       ∧ persisted (world s3) = Some (File (Json m')))
  ∧ (∀ w, reported query w = Ret true ↔ summary_outcome query w = Ret tt)
  ∧ (∀ w e, reported query w = Raise e ↔ summary_outcome query w = Raise e).
Proof.
  intros Hplan. split_and!.
  - intros -> dry. rewrite run_build_phases, Hplan.
    rewrite bool_decide_eq_true_2 by done. apply report_spec.
  - intros s2 m' s3 Hne Hstart Hrun. split.
    + rewrite run_build_phases, Hplan.
      rewrite bool_decide_eq_false_2 by done.
      rewrite Hstart, Hrun. apply report_spec.
    + apply run_steps_finished in Hrun as (_ & _ & _ & _ & Hcons).
      by apply Hcons.
  - intros w. unfold reported.
    destruct (summary_outcome query w) as [[]|]; naive_solver.
  - intros w e. unfold reported.
    destruct (summary_outcome query w) as [[]|]; naive_solver.
Qed.

(** [run_build] returns [False] exactly when the run is not dry and a step
    fails. *)
Lemma run_build_false_iff reg requested full dry s :
  (run_build query reg requested full dry s).1 = Ret false
  ↔ dry = false ∧ step_fails reg requested full s.
Proof.
  rewrite run_build_phases. split.
  - destruct (plan_phase reg requested full s) as [[[m0 plan]|e] s1] eqn:Hplan;
      [|done].
    case_bool_decide.
    { rewrite report_spec. unfold reported.
      by destruct (summary_outcome _ _). }
    destruct dry.
    { unfold bind at 1, log, emit. unfold bind at 1.
      by edestruct (for_each_log_dry_step m0) as (tr & -> & _). }
    rewrite start_phase_spec.
    destruct (run_steps plan m0 _) as [[[[] m1]|e] s3] eqn:Hrun; [|intros _|done].
    { rewrite report_spec. unfold reported.
      by destruct (summary_outcome _ _). }
    split; [done|].
    apply run_steps_failed in Hrun
      as (done & it & rest & sk & e & -> & Hdone & He & _).
    exists m0, (done ++ it :: rest), s1, done, it, rest, m1, sk, e.
    by rewrite start_phase_spec.
  - intros [-> (m0 & plan & s1 & done & it & rest & m1 & sk & e
                & -> & -> & Hdone & He)].
    rewrite bool_decide_eq_false_2 by by destruct done.
    rewrite start_phase_spec in *. simpl in Hdone.
    by rewrite (run_steps_fails _ _ _ _ _ _ _ _ Hdone He).
Qed.

(** C7, as the code has it.  Take an invocation whose arguments the
    parser accepts and which does not end in an uncaught exception.  Its
    exit status is not zero exactly when, without [--list], a requested
    target is not the target of a registered step, or the run is not dry
    and the action of a planned step raises.  A request naming an unknown
    target ends the process with status 1 before anything is run or
    written. *)
Theorem main_exit_status (parse_args : parser) (reg : list Step)
    (argv : list string) (args : Args) (s : Machine) :
  parse_args argv = inl args →
  (∀ e, (main query parse_args reg argv s).1 ≠ Uncaught e) →
  (exit_status (main query parse_args reg argv s).1 ≠ 0%Z
   ↔ arg_list_steps args = false
     ∧ (is_Some (unknown_target reg (arg_targets args))
        ∨ (arg_dry_run args = false
           ∧ step_fails reg (arg_targets args) (arg_full args) s)))
  ∧ (∀ t, arg_list_steps args = false →
          unknown_target reg (arg_targets args) = Some t →
          main query parse_args reg argv s
          = (SysExitMsg (unknown_target_message reg t), s)
          ∧ exit_status (main query parse_args reg argv s).1 = 1%Z
          ∧ t ∈ arg_targets args ∧ t ∉ target <$> reg).
Proof.
  intros Hparse Hcaught. split.
  - pose proof (run_build_false_iff reg (arg_targets args) (arg_full args)
                  (arg_dry_run args) s) as Hfalse.
    revert Hcaught. unfold main. rewrite Hparse.
    destruct (arg_list_steps args).
    + destruct (list_steps reg s) as [[[]|e] s']; simpl; intros Hcaught.
      * split; [done|]. by intros [? _].
      * by destruct (Hcaught e).
    + destruct (unknown_target reg (arg_targets args)) as [t|]; simpl.
      { intros _. split; [|done]. intros _. split; [done|]. left. by eexists. }
      destruct (run_build query reg (arg_targets args) (arg_full args)
                  (arg_dry_run args) s) as [[[]|e] s']; simpl; intros Hcaught.
      * split; [done|]. intros [_ [[? [=]]|Hf]].
        apply Hfalse in Hf. discriminate Hf.
      * split; [|done]. intros _. split; [done|]. right. by apply Hfalse.
      * by destruct (Hcaught e).
  - intros t Hl Hu. unfold main. rewrite Hparse, Hl, Hu.
    apply unknown_target_Some in Hu as [? ?]. done.
Qed.

(** C5. A manifest with an entry for every registered step, together with
    no requested target, gives the empty plan.  After a run that is not dry
    and returns [True], whatever the next run loads as its manifest has an
    entry for every registered step, so its plan without new requests is
    empty; and unless the registry is empty and the run was a full rebuild,
    that load does return. *)
Theorem planner_idempotent (reg : list Step) :
  (∀ m, (∀ s, s ∈ reg → is_Some (m !! step_id s)) →
        determine_steps_to_run reg m [] false = [])
  ∧ (∀ requested full s0 s',
       run_build query reg requested full false s0 = (Ret true, s') →
       (∀ m' s'', load_manifest s' = (Ret m', s'') →
          (∀ s, s ∈ reg → is_Some (m' !! step_id s))
          ∧ determine_steps_to_run reg m' [] false = [])
       ∧ (reg ≠ [] ∨ full = false → ∃ m', load_manifest s' = (Ret m', s'))).
Proof.
  split; [apply plan_empty_when_all_built|].
  intros requested full s0 s' Hrun.
  assert (Hloaded : (∃ m', persisted (world s') = Some (File (Json m'))
                      ∧ ∀ s, s ∈ reg → is_Some (m' !! step_id s))
                    ∨ (reg = [] ∧ full = true)
                    ∨ (persisted (world s') = None
                       ∧ ∀ s, s ∈ reg → is_Some ((∅ : manifest) !! step_id s))).
  { rewrite run_build_phases in Hrun.
    destruct (plan_phase reg requested full s0) as [[[m0 plan]|e] s1] eqn:Hplan;
      [|done].
    apply plan_phase_ret in Hplan as (Hp & Hm0 & _).
    case_bool_decide as Hnil.
    - rewrite report_spec in Hrun. injection Hrun as _ <-. simpl.
      destruct full.
      + right; left. split; [|done]. rewrite Hnil in Hp.
        unfold determine_steps_to_run in Hp. by destruct reg.
      + assert (Hall : ∀ s, s ∈ reg → is_Some (m0 !! step_id s)).
        { intros s Hs. destruct (m0 !! step_id s) eqn:Hl; [done|].
          pose proof (plan_covers_new reg m0 requested s Hs Hl) as Hin.
          rewrite <- Hp, Hnil in Hin. by apply elem_of_nil in Hin. }
        apply load_manifest_ret in Hm0 as [_ [?|[? ->]]].
        * left. by exists m0.
        * right; right. done.
    - rewrite start_phase_spec in Hrun.
      destruct (run_steps plan m0 _) as [[[[] m1]|e] s3] eqn:Hsteps;
        [|done|done].
      rewrite report_spec in Hrun. injection Hrun as _ <-. simpl.
      apply run_steps_finished in Hsteps as (_ & Hdom & _ & _ & Hcons).
      left. exists m1. split; [by apply Hcons|].
      intros s Hs. apply elem_of_dom. rewrite Hdom.
      destruct (m0 !! step_id s) eqn:Hl.
      + apply elem_of_union_l, elem_of_dom. by eexists.
      + apply elem_of_union_r, elem_of_list_to_set. rewrite Hp.
        destruct full.
        * unfold determine_steps_to_run. rewrite <- list_fmap_compose.
          apply list_elem_of_fmap. by exists s.
        * by apply plan_covers_new. }
  split.
  - intros m' s'' Hl.
    assert (Hall : ∀ s, s ∈ reg → is_Some (m' !! step_id s)).
    { apply load_manifest_ret in Hl as [_ Hl].
      destruct Hloaded as [(m1 & Hp & Hall)|[[-> _]|[Hp Hall]]].
      - destruct Hl as [?|[? _]]; by simplify_eq.
      - by intros s ?%elem_of_nil.
      - destruct Hl as [?|[_ ->]]; [congruence|done]. }
    split; [done|]. by apply plan_empty_when_all_built.
  - intros Hcase.
    destruct Hloaded as [(m1 & Hp & _)|[[-> ->]|[Hp _]]].
    + exists m1. by apply load_manifest_persisted.
    + by destruct Hcase.
    + exists ∅. unfold load_manifest. unfold persisted in Hp. by rewrite Hp.
Qed.

End Claims.

(** ** The claims on sample runs *)

(** C2 on the chain A, B, C where B raises, from a fresh machine: the run
    reports failure, A and B were invoked and C was not, and the manifest
    holds an entry for A only. *)
Lemma run_build_fail_fast_chain :
  ∃ s',
    run_build query_ok chain_failing [] false false fresh = (Ret false, s')
    ∧ calls_of (trace s') = ["A"; "B"]
    ∧ persisted (world s') = Some (File (Json (loop_manifest chain_failing_A)))
    ∧ dom (loop_manifest chain_failing_A) = {["A"]}.
Proof.
  destruct (run_build_fail_fast query_ok chain_failing [] false fresh
              ∅ (item_of <$> chain_failing)
              (plan_phase chain_failing [] false fresh).2
              (started chain_failing false fresh)
              (take 1 (item_of <$> chain_failing))
              (item_of (mkStep "B" "t2" ["t1"] (failing "boom")))
              (drop 2 (item_of <$> chain_failing))
              (loop_manifest chain_failing_A) chain_failing_A.2
              (RuntimeError "boom"))
    as (s' & Hrun & Hcalls & _ & Hp & Hdom & _).
  - by_evaluation.
  - by_evaluation.
  - reflexivity.
  - by_evaluation.
  - reflexivity.
  - reflexivity.
  - exists s'. split_and!; [exact Hrun|exact Hcalls|exact Hp|].
    rewrite Hdom. by_evaluation.
Defined.

(** C9 on a full rebuild over the used output directory: after the first
    step the manifest holds an entry for A only, and the entry of the
    earlier run is gone. *)
Lemma full_rebuild_manifest_duo :
  persisted (world used) = Some (File (Json old_manifest))
  ∧ persisted (world duo_full_A.2)
    = Some (File (Json (loop_manifest duo_full_A)))
  ∧ dom (loop_manifest duo_full_A) = {["A"]}
  ∧ loop_manifest duo_full_A !! "retired_v0" = None.
Proof.
  destruct (full_rebuild_manifest query_ok duo [] used ∅ (item_of <$> duo)
              (plan_phase duo [] true used).2 (started duo true used)
              1 (loop_manifest duo_full_A) duo_full_A.2)
    as (_ & _ & Hp & Hdom & Hother & _).
  - by_evaluation.
  - by_evaluation.
  - simpl. lia.
  - by_evaluation.
  - split_and!; [by_evaluation|exact Hp| |].
    + rewrite Hdom. by_evaluation.
    + apply Hother. apply (bool_decide_unpack _). vm_cast_no_check I.
Defined.

(** C8, as the code has it, on a registry of one step from a fresh
    machine: the step completes, the reporter is invoked last and returns,
    and the run returns [True]. *)
Lemma run_build_reports_solo :
  run_build query_ok solo [] false false fresh
  = (Ret true,
     mkMachine (world solo_A.2)
       (trace solo_A.2 ++ [Log MsgComplete] ++ [Reported])).
Proof.
  destruct (run_build_reports query_ok solo [] false fresh ∅
              (item_of <$> solo) (plan_phase solo [] false fresh).2)
    as (_ & Hsteps & _).
  - by_evaluation.
  - destruct (Hsteps (started solo false fresh) (loop_manifest solo_A)
                solo_A.2) as [Hrun _].
    + done.
    + by_evaluation.
    + by_evaluation.
    + rewrite Hrun. f_equal.
Defined.

(** C8, as stated, fails: with nothing to do, a reporter that raises makes
    [run_build] raise instead of returning [True]. *)
Lemma run_build_reporter_raises :
  determine_steps_to_run [] old_manifest [] false = []
  ∧ (run_build query_no_files [] [] false false used).1
    = Raise (IOException "No files found")
  ∧ (run_build query_no_files [] [] false false used).1 ≠ Ret true.
Proof.
  split; [done|].
  assert (H : (run_build query_no_files [] [] false false used).1
              = Raise (IOException "No files found")) by by_evaluation.
  split; [done|]. by rewrite H.
Qed.

(** C7, as the code has it, on a request for a target no step builds. *)
Lemma main_exit_status_unknown :
  main query_ok (parsed (mkArgs ["nope"] false false false)) solo ["nope"] fresh
  = (SysExitMsg "Unknown target: 'nope'. Known targets: t1", fresh)
  ∧ exit_status
      (main query_ok (parsed (mkArgs ["nope"] false false false)) solo
            ["nope"] fresh).1 = 1%Z.
Proof.
  assert (Hmain : main query_ok (parsed (mkArgs ["nope"] false false false))
                       solo ["nope"] fresh
                  = (SysExitMsg "Unknown target: 'nope'. Known targets: t1",
                     fresh)) by by_evaluation.
  destruct (main_exit_status query_ok
              (parsed (mkArgs ["nope"] false false false)) solo ["nope"]
              (mkArgs ["nope"] false false false) fresh) as (_ & Hunknown).
  - reflexivity.
  - intros e. rewrite Hmain. discriminate.
  - destruct (Hunknown "nope") as (_ & Hstatus & _);
      [reflexivity|by_evaluation|].
    split; [exact Hmain|exact Hstatus].
Defined.

(** C7, as stated, fails: a request naming an unknown target exits with
    status 1 although nothing was run, and although no step of that
    request would fail. *)
Lemma main_unknown_target_nonzero :
  exit_status
    (main query_ok (parsed (mkArgs ["nope"] false false false)) solo
          ["nope"] fresh).1 ≠ 0%Z
  ∧ (main query_ok (parsed (mkArgs ["nope"] false false false)) solo
          ["nope"] fresh).2 = fresh
  ∧ ¬ step_fails solo ["nope"] false fresh.
Proof.
  assert (Hmain : main query_ok (parsed (mkArgs ["nope"] false false false))
                       solo ["nope"] fresh
                  = (SysExitMsg "Unknown target: 'nope'. Known targets: t1",
                     fresh)) by by_evaluation.
  rewrite Hmain. split_and!; [done|done|].
  intros Hfails.
  assert (Hfalse : (run_build query_ok solo ["nope"] false false fresh).1
                   = Ret false) by by apply run_build_false_iff.
  assert (Htrue : (run_build query_ok solo ["nope"] false false fresh).1
                  = Ret true) by by_evaluation.
  congruence.
Qed.

(** C5 on the chain: with A, B and C in the manifest and nothing requested
    there is nothing to do. *)
Lemma planner_idempotent_chain :
  determine_steps_to_run chain
    (<["A" := Entry 1 1]> (<["B" := Entry 2 1]> (<["C" := Entry 3 1]> ∅)))
    [] false = [].
Proof.
  apply (proj1 (planner_idempotent query_ok chain)).
  intros s Hs.
  repeat (apply elem_of_cons in Hs as [->|Hs]);
    [apply (bool_decide_unpack _); vm_cast_no_check I..|].
  by apply elem_of_nil in Hs.
Defined.

(** C10 on a dry run over the used output directory: the residue of the
    interrupted publish is gone, the rest is there, and no step ran. *)
Example run_build_dry_run_used :
  let s' := (run_build query_ok duo [] false true used).2 in
  dom <$> out_dir (world s') = Some {[MANIFEST_FILE; "prices"]}
  ∧ persisted (world s') = Some (File (Json old_manifest))
  ∧ calls_of (trace s') = [].
Proof. split_and!; by_evaluation. Qed.

(* ===================================================================== *)
(** * Further properties of the code                                      *)
(* ===================================================================== *)

(** ** More on the registry and the dependency index *)

Lemma ids_of_snoc t l s :
  ids_of t (l ++ [s])
  = ids_of t l ++ (if decide (target s = t) then [step_id s] else []).
Proof.
  unfold ids_of. rewrite filter_app, fmap_app. f_equal.
  rewrite filter_cons, filter_nil. by case_decide.
Qed.

Lemma step_index_agrees sid tgt deps fn r :
  index_agrees r → index_agrees (step sid tgt deps fn r).
Proof.
  intros Hr t. unfold step. simpl. rewrite ids_of_snoc. simpl.
  destruct (decide (tgt = t)) as [->|Hne].
  - rewrite lookup_insert_eq, Hr.
    by destruct (ids_of t (steps r)).
  - rewrite lookup_insert_ne by done. rewrite Hr, app_nil_r. done.
Qed.

Lemma register_all_steps l r :
  steps (register_all l r) = steps r ++ l.
Proof.
  revert r. induction l as [|s l IH]; intros r; simpl.
  - by rewrite app_nil_r.
  - rewrite IH. unfold step. simpl. rewrite <- app_assoc. by destruct s.
Qed.

Lemma register_all_index_agrees l r :
  index_agrees r → index_agrees (register_all l r).
Proof.
  revert r. induction l as [|s l IH]; intros r Hr; [done|].
  simpl. by apply IH, step_index_agrees.
Qed.

(** X1. Whatever steps are registered, in whatever order, the two tables
    of the registry agree: [_steps] lists them in registration order, and
    [_target_to_steps] files under each target exactly the ids of the steps
    that build it, in that order. *)
Theorem register_all_tables (l : list Step) :
  steps (register_all l empty_registry) = l
  ∧ index_agrees (register_all l empty_registry)
  ∧ ∀ t, default [] (target_to_steps (register_all l empty_registry) !! t)
         = step_id <$> filter (λ s, target s = t) l.
Proof.
  assert (Hs : steps (register_all l empty_registry) = l)
    by by rewrite register_all_steps.
  assert (Hi : index_agrees (register_all l empty_registry)).
  { apply register_all_index_agrees. intros t. apply lookup_empty. }
  split_and!; [done|done|].
  intros t. rewrite Hi, Hs. fold (ids_of t l). by destruct (ids_of t l).
Qed.

Lemma add_dependent_nonempty tgt g dep :
  (∀ u X, g !! u = Some X → X ≠ ∅) →
  ∀ u X, add_dependent tgt g dep !! u = Some X → X ≠ ∅.
Proof.
  intros Hg u X. unfold add_dependent.
  destruct (decide (dep = u)) as [->|Hne].
  - rewrite lookup_insert_eq. intros [= <-]. set_solver.
  - rewrite lookup_insert_ne by done. apply Hg.
Qed.

Lemma get_dependency_graph_nonempty reg u X :
  get_dependency_graph reg !! u = Some X → X ≠ ∅.
Proof.
  unfold get_dependency_graph.
  assert (Hgen : ∀ g, (∀ u X, g !! u = Some X → X ≠ ∅) →
    ∀ u X, fold_left
             (λ g s, fold_left (add_dependent (target s)) (depends_on s) g)
             reg g !! u = Some X → X ≠ ∅).
  { induction reg as [|s reg IH]; intros g Hg; [done|]. simpl.
    apply IH. generalize (depends_on s). intros deps. revert g Hg.
    induction deps as [|d deps IHd]; intros g Hg; [done|]. simpl.
    by apply IHd, add_dependent_nonempty. }
  apply Hgen. intros u' X'. by rewrite lookup_empty.
Qed.

(** X2. The graph of [get_dependency_graph] is the reverse of the
    registry's [depends_on]: the set under a key holds exactly the targets
    of the steps that list the key as a dependency; a key is present
    exactly when some step depends on it; and no key maps to the empty
    set. *)
Theorem get_dependency_graph_reverse (reg : list Step) :
  (∀ u v, v ∈ default ∅ (get_dependency_graph reg !! u)
          ↔ ∃ s, s ∈ reg ∧ target s = v ∧ u ∈ depends_on s)
  ∧ (∀ u, is_Some (get_dependency_graph reg !! u)
          ↔ ∃ s, s ∈ reg ∧ u ∈ depends_on s)
  ∧ (∀ u X, get_dependency_graph reg !! u = Some X → X ≠ ∅).
Proof.
  split_and!.
  - intros u v. apply get_dependency_graph_edge.
  - intros u. split.
    + intros [X HX].
      pose proof (get_dependency_graph_nonempty reg u X HX) as Hne.
      apply set_choose_L in Hne as [v Hv].
      assert (He : edge (get_dependency_graph reg) u v)
        by (unfold edge; by rewrite HX).
      apply get_dependency_graph_edge in He as (s & ? & _ & ?). eauto.
    + intros (s & Hs & Hu).
      assert (He : edge (get_dependency_graph reg) u (target s))
        by (apply get_dependency_graph_edge; by exists s).
      unfold edge in He.
      destruct (get_dependency_graph reg !! u); [done|].
      by apply not_elem_of_empty in He.
  - apply get_dependency_graph_nonempty.
Qed.

(** X3. The set [get_downstream_targets] returns does not depend on the
    order in which Python iterates over a set: with any enumeration of the
    dependents of a node, the search ends within the same fuel with the
    same set. *)
Theorem bfs_order_irrelevant (iter : gset string → list string)
    (reg : list Step) (t : string) :
  (∀ X, iter X ≡ₚ elements X) →
  ∃ visited,
    bfs_loop iter (get_dependency_graph reg)
             (bfs_fuel (get_dependency_graph reg) t) ∅ [t] = Some visited
    ∧ get_downstream_targets reg t = visited ∖ {[t]}.
Proof.
  intros Hiter.
  destruct (bfs_loop_terminates iter Hiter (get_dependency_graph reg) t)
    as [v1 H1].
  destruct (get_downstream_targets_visited reg t) as (v2 & H2 & ->).
  exists v1. split; [done|]. f_equal. apply set_eq. intros x.
  rewrite (bfs_loop_reachable iter Hiter _ _ _ H1).
  by rewrite (bfs_loop_reachable elements elements_perm _ _ _ H2).
Qed.

Lemma bfs_order_irrelevant_reverse :
  ∃ visited,
    bfs_loop (λ X, reverse (elements X)) (get_dependency_graph diamond)
             (bfs_fuel (get_dependency_graph diamond) "a") ∅ ["a"]
    = Some visited
    ∧ get_downstream_targets diamond "a" = visited ∖ {["a"]}.
Proof.
  apply (bfs_order_irrelevant (λ X, reverse (elements X)) diamond "a").
  intros X. apply reverse_Permutation.
Defined.

Lemma tc_depends_mono reg reg' x t :
  reg ⊆ reg' → tc (depends_directly reg) x t → tc (depends_directly reg') x t.
Proof.
  intros Hsub.
  assert (Hstep : ∀ a b, depends_directly reg a b → depends_directly reg' a b).
  { intros a b (s & ? & ? & ?). exists s. split; [by apply Hsub|done]. }
  induction 1 as [a b Hab|a b c Hab _ IH].
  - by apply tc_once, Hstep.
  - eapply tc_l; [by apply Hstep|done].
Qed.

(** X4. Downstream sets compose: a target is never downstream of itself;
    what is downstream of a downstream target is downstream too (the
    target itself apart); a target no step depends on has nothing
    downstream; and registering more steps only adds to a downstream set. *)
Theorem get_downstream_targets_algebra (reg : list Step) :
  (∀ t, t ∉ get_downstream_targets reg t)
  ∧ (∀ t x y, x ∈ get_downstream_targets reg t →
              y ∈ get_downstream_targets reg x → y ≠ t →
              y ∈ get_downstream_targets reg t)
  ∧ (∀ t, (∀ s, s ∈ reg → t ∉ depends_on s) →
          get_downstream_targets reg t = ∅)
  ∧ (∀ more t, get_downstream_targets reg t
               ⊆ get_downstream_targets (reg ++ more) t).
Proof.
  split_and!.
  - intros t. rewrite elem_of_get_downstream_targets. naive_solver.
  - intros t x y. rewrite !elem_of_get_downstream_targets.
    intros [_ Hx] [_ Hy] Hne. split; [done|]. by etrans.
  - intros t Hleaf. apply set_eq. intros x.
    rewrite elem_of_get_downstream_targets. split; [|by intros ?%not_elem_of_empty].
    intros [_ Htc]. exfalso.
    assert (Hlast : ∀ a b, tc (depends_directly reg) a b →
              ∃ c, depends_directly reg c b).
    { induction 1 as [a b Hab|a b c Hab _ IH]; [by exists a|done]. }
    destruct (Hlast _ _ Htc) as (c & s & Hs & _ & Hin). by apply (Hleaf s).
  - intros more t x. rewrite !elem_of_get_downstream_targets.
    intros [? Htc]. split; [done|].
    eapply tc_depends_mono; [|done]. set_solver.
Qed.

(** ** More on the planner *)

(** X5. [force_targets] is the closure of the requested targets under
    "depends on": it contains every requested target, it contains every
    target that directly depends on one of its members, and it is included
    in every set with these two properties. *)
Theorem force_targets_least_closed (reg : list Step) (requested : list string) :
  (∀ t, t ∈ requested → t ∈ force_targets reg requested)
  ∧ (∀ x y, x ∈ force_targets reg requested → depends_directly reg y x →
            y ∈ force_targets reg requested)
  ∧ (∀ S : gset string,
       (∀ t, t ∈ requested → t ∈ S) →
       (∀ x y, x ∈ S → depends_directly reg y x → y ∈ S) →
       force_targets reg requested ⊆ S).
Proof.
  split_and!.
  - intros t Ht. apply elem_of_force_targets. exists t. by split; [|left].
  - intros x y [t [Ht Hx]]%elem_of_force_targets Hyx.
    apply elem_of_force_targets.
    destruct (decide (y = t)) as [->|Hne]; [exists t; by split; [|left]|].
    exists t. split; [done|]. right.
    apply elem_of_get_downstream_targets. split; [done|].
    destruct Hx as [->|[_ Hx]%elem_of_get_downstream_targets].
    + by apply tc_once.
    + by eapply tc_l.
  - intros S Hreq Hclosed x [t [Ht Hx]]%elem_of_force_targets.
    destruct Hx as [->|[_ Hx]%elem_of_get_downstream_targets]; [by apply Hreq|].
    assert (Hgen : ∀ a b, tc (depends_directly reg) a b → b ∈ S → a ∈ S).
    { induction 1 as [a b Hab|a b c Hab _ IH]; intros Hb.
      - by eapply Hclosed.
      - eapply Hclosed; [|done]. by apply IH. }
    eapply Hgen; [done|]. by apply Hreq.
Qed.

Lemma walk_step_cons m force s l rebuilt to_run :
  fold_left (walk_step m force) (s :: l) (rebuilt, to_run)
  = if should_run m force rebuilt s
    then fold_left (walk_step m force) l
           (rebuilt ∪ {[target s]}, to_run ++ [item_of s])
    else fold_left (walk_step m force) l (rebuilt, to_run).
Proof. simpl. unfold walk_step at 2. simpl. by destruct (should_run _ _ _ _). Qed.

(** What the walk appends does not depend on what was selected before. *)
Lemma walk_step_acc m force l rebuilt to_run :
  fold_left (walk_step m force) l (rebuilt, to_run)
  = ((fold_left (walk_step m force) l (rebuilt, [])).1,
     to_run ++ (fold_left (walk_step m force) l (rebuilt, [])).2).
Proof.
  revert rebuilt to_run. induction l as [|s l IH]; intros rebuilt to_run.
  - simpl. by rewrite app_nil_r.
  - rewrite !walk_step_cons. destruct (should_run m force rebuilt s); [|done].
    rewrite IH, (IH _ ([] ++ _)). simpl. by rewrite <- app_assoc.
Qed.

(** X6. A full rebuild plans what an empty manifest plans: with no entry
    in the manifest the walk selects every step, whatever is requested. *)
Theorem determine_steps_to_run_full_is_empty_manifest (reg : list Step)
    (m : manifest) (requested requested' : list string) :
  determine_steps_to_run reg m requested true
  = determine_steps_to_run reg ∅ requested' false.
Proof.
  unfold determine_steps_to_run.
  generalize (force_targets reg requested'). intros force.
  assert (Hgen : ∀ l rebuilt,
    (fold_left (walk_step ∅ force) l (rebuilt, [])).2 = item_of <$> l).
  { induction l as [|s l IH]; intros rebuilt; [done|].
    rewrite walk_step_cons.
    assert (should_run ∅ force rebuilt s = true) as ->.
    { apply should_run_spec. left. apply lookup_empty. }
    rewrite walk_step_acc. simpl. by rewrite IH. }
  by rewrite Hgen.
Qed.

Lemma walk_step_sublist m force l rebuilt :
  (fold_left (walk_step m force) l (rebuilt, [])).2 `sublist_of` item_of <$> l.
Proof.
  revert rebuilt. induction l as [|s l IH]; intros rebuilt; [done|].
  rewrite walk_step_cons. destruct (should_run m force rebuilt s).
  - rewrite walk_step_acc. simpl. by apply sublist_skip.
  - simpl. by apply sublist_cons.
Qed.

Lemma plan_items_registered reg m requested full it :
  it ∈ determine_steps_to_run reg m requested full →
  ∃ s, s ∈ reg ∧ it = item_of s.
Proof.
  intros Hit.
  assert (Hin : it ∈ item_of <$> reg).
  { unfold determine_steps_to_run in Hit. destruct full; [done|].
    eapply elem_of_sublist; [done|apply walk_step_sublist]. }
  apply list_elem_of_fmap in Hin as (s & -> & ?). eauto.
Qed.

(** X7. The plan is a sublist of the registry: the planner keeps the
    registration order and takes each registered step at most once. *)
Theorem determine_steps_to_run_sublist (reg : list Step) (m : manifest)
    (requested : list string) (full : bool) :
  determine_steps_to_run reg m requested full `sublist_of` item_of <$> reg
  ∧ length (determine_steps_to_run reg m requested full) ≤ length reg.
Proof.
  assert (H : determine_steps_to_run reg m requested full
              `sublist_of` item_of <$> reg).
  { unfold determine_steps_to_run. destruct full; [done|].
    apply walk_step_sublist. }
  split; [done|]. apply sublist_length in H. by rewrite length_fmap in H.
Qed.







(** ** More on the manifest store and on cleanup *)

(** X10. What [save_manifest] wrote is what [load_manifest] reads, and the
    last save wins: after a save that returned, a second save returns too
    and the manifest read back is that of the second. *)
Theorem save_load_round_trip (m m2 : manifest) (s s' : Machine) :
  save_manifest m s = (Ret tt, s') →
  load_manifest s' = (Ret m, s')
  ∧ ∃ s'', save_manifest m2 s' = (Ret tt, s'')
           ∧ load_manifest s'' = (Ret m2, s'').
Proof.
  intros Hs. apply save_manifest_ret in Hs as (Hp & Hst & _).
  split; [by apply load_manifest_persisted|].
  unfold save_manifest. rewrite run_ops_save_ops. cbv zeta.
  rewrite !lookup_default_empty.
  unfold persisted, staged in *. rewrite Hp, Hst.
  eexists. split; [done|].
  apply load_manifest_persisted. unfold persisted. simpl.
  apply lookup_insert_eq.
Qed.

(** X11. [save_manifest] returns exactly when no directory sits at the
    staging path or at the manifest's path, also when the output directory
    does not exist yet.  A directory at the staging path makes it raise
    before anything is written; a directory at the manifest's path makes
    the rename raise, and the staged document is left behind. *)
Theorem save_manifest_outcome (m : manifest) (s : Machine) :
  ((∃ s', save_manifest m s = (Ret tt, s'))
   ↔ ¬ is_directory (staged (world s)) ∧ ¬ is_directory (persisted (world s)))
  ∧ (is_directory (staged (world s)) →
     ∃ s', save_manifest m s = (Raise (IsADirectoryError MANIFEST_TMP), s')
           ∧ ∀ n, out_dir (world s') ≫= (.!! n) = out_dir (world s) ≫= (.!! n))
  ∧ (¬ is_directory (staged (world s)) → is_directory (persisted (world s)) →
     ∃ s', save_manifest m s = (Raise (IsADirectoryError MANIFEST_FILE), s')
           ∧ staged (world s') = Some (File (Json m))
           ∧ persisted (world s') = persisted (world s)).
Proof.
  unfold save_manifest, staged, persisted, is_directory.
  rewrite run_ops_save_ops. cbv zeta. rewrite !lookup_default_empty.
  pose proof (lookup_default_empty (out_dir (world s))) as Hn.
  pose proof (lookup_insert_eq (default ∅ (out_dir (world s))) MANIFEST_TMP
                (File (Json m))) as Hi1.
  pose proof (lookup_insert_ne (default ∅ (out_dir (world s))) MANIFEST_TMP
                MANIFEST_FILE (File (Json m)) MANIFEST_TMP_ne) as Hi2.
  rewrite Hn in Hi2.
  destruct (out_dir (world s) ≫= (.!! MANIFEST_TMP)) as [[c|ms]|];
    destruct (out_dir (world s) ≫= (.!! MANIFEST_FILE)) as [[c'|ms']|];
    simpl; naive_solver.
Qed.

Lemma for_each_cleanup_item_trace names s d :
  out_dir (world s) = Some d →
  ∃ s', for_each cleanup_item names s = (Ret tt, s')
        ∧ trace s' = trace s ++ cleaning_log names.
Proof.
  revert s d. induction names as [|name names IH]; intros s d Hd.
  - exists s. split; [done|]. by rewrite app_nil_r.
  - cbn [for_each]. rewrite cleanup_item_stale. unfold cleaning_log.
    rewrite filter_cons.
    destruct (is_stale name) eqn:Hst.
    + rewrite decide_True by done.
      unfold bind at 1 2, log, emit, remove_item, set_out_dir. simpl.
      rewrite Hd. simpl.
      match goal with
      | |- context [for_each cleanup_item names ?m] =>
          destruct (IH m _ eq_refl) as (s' & -> & Htr)
      end.
      exists s'. split; [done|]. rewrite Htr. simpl. by rewrite <- app_assoc.
    + rewrite decide_False by done. unfold bind at 1, ret at 1.
      by apply (IH s d).
Qed.

Lemma cleaned_cleaned d : cleaned (cleaned d) = cleaned d.
Proof.
  apply map_eq. intros n. rewrite !cleaned_lookup. by destruct (is_stale n).
Qed.

Lemma cleaning_log_cleaned d : cleaning_log (map_to_list (cleaned d)).*1 = [].
Proof.
  unfold cleaning_log.
  assert (Hall : ∀ n, n ∈ (map_to_list (cleaned d)).*1 → is_stale n = false).
  { intros n [[n' x] [-> Hin]]%list_elem_of_fmap.
    apply elem_of_map_to_list in Hin. simpl.
    rewrite cleaned_lookup in Hin. by destruct (is_stale n'). }
  induction (map_to_list (cleaned d)).*1 as [|n l IH]; [done|].
  rewrite filter_cons, decide_False.
  - apply IH. intros n' ?. apply Hall. by right.
  - rewrite (Hall n) by left. done.
Qed.

(** [cleanup_stale_artifacts] on an output directory of files and
    directories, and what it does when it is run again. *)
Lemma cleanup_stale_artifacts_twice (s : Machine) :
  ∃ s',
    cleanup_stale_artifacts s = (Ret tt, s')
    ∧ out_dir (world s') = cleaned <$> out_dir (world s)
    ∧ clock (world s') = clock (world s)
    ∧ trace s' = trace s ++ cleaning_log (entry_names (world s))
    ∧ persisted (world s') = persisted (world s)
    ∧ staged (world s') = None
    ∧ cleanup_stale_artifacts s' = (Ret tt, s').
Proof.
  assert (Hone : ∀ s, ∃ s',
    cleanup_stale_artifacts s = (Ret tt, s')
    ∧ out_dir (world s') = cleaned <$> out_dir (world s)
    ∧ clock (world s') = clock (world s)
    ∧ trace s' = trace s ++ cleaning_log (entry_names (world s))).
  { clear s. intros s.
    destruct (cleanup_stale_artifacts_spec s) as (s' & Hc & Hout & Hclk & _).
    exists s'. split_and!; try done.
    unfold cleanup_stale_artifacts, entry_names in *.
    destruct (out_dir (world s)) as [d|] eqn:Hd.
    - destruct (for_each_cleanup_item_trace (map_to_list d).*1 s d Hd)
        as (s2 & Hc2 & Htr). rewrite Hc in Hc2. by injection Hc2 as <-.
    - unfold ret in Hc. injection Hc as <-. unfold cleaning_log. simpl.
      by rewrite app_nil_r. }
  destruct (Hone s) as (s' & Hc & Hout & Hclk & Htr).
  destruct (plan_phase_spec [] [] true s) as (s1 & Hc1 & _ & _ & Hp & Hst & _).
  rewrite Hc in Hc1. injection Hc1 as <-.
  exists s'. split_and!; try done.
  destruct (Hone s') as (s'' & Hc' & Hout' & Hclk' & Htr').
  rewrite Hc'. f_equal.
  assert (Hnames : cleaning_log (entry_names (world s')) = []).
  { unfold entry_names. rewrite Hout.
    destruct (out_dir (world s)); simpl; [apply cleaning_log_cleaned|done]. }
  rewrite Hnames, app_nil_r in Htr'.
  assert (Hd : out_dir (world s'') = out_dir (world s')).
  { rewrite Hout', Hout. destruct (out_dir (world s)); simpl; [|done].
    by rewrite cleaned_cleaned. }
  clear -Htr' Hd Hclk'.
  destruct s'' as [[d2 c2] t2], s' as [[d1 c1] t1]. simpl in *. congruence.
Qed.

(** X12. When [cleanup_stale_artifacts] returns, it has removed exactly
    the entries with a stale name and logged one line for each, in the
    order of the listing; it has kept the manifest and removed the
    manifest's staging file; and run again right after, it finds nothing
    to remove: it returns, and changes and logs nothing. *)
Theorem cleanup_stale_artifacts_idempotent (s s' : Machine) :
  cleanup_stale_artifacts s = (Ret tt, s') →
  out_dir (world s') = cleaned <$> out_dir (world s)
  ∧ clock (world s') = clock (world s)
  ∧ trace s' = trace s ++ cleaning_log (entry_names (world s))
  ∧ persisted (world s') = persisted (world s)
  ∧ staged (world s') = None
  ∧ cleanup_stale_artifacts s' = (Ret tt, s').
Proof.
  intros Hret.
  destruct (cleanup_stale_artifacts_twice s) as (s2 & Hc & H).
  rewrite Hret in Hc. by injection Hc as <-.
Qed.

(** ** More on the executor *)




Lemma for_each_emit_rows m reg s :
  for_each (λ st, emit (Printed (step_id st) (target st) (m !! step_id st)
                                (depends_on st))) reg s
  = (Ret tt, mkMachine (world s) (trace s ++ list_rows m reg)).
Proof.
  revert s. induction reg as [|st reg IH]; intros s.
  - unfold list_rows. simpl. rewrite app_nil_r. by destruct s.
  - cbn [for_each]. unfold bind, emit at 1.
    rewrite IH. unfold list_rows. simpl. by rewrite <- app_assoc.
Qed.

(** X17. With [--list], [main] only reads: it leaves the file system and
    the clock as they were and invokes no action.  When the manifest file
    holds a dictionary of entries, or there is no manifest, it prints one
    row per registered step, in registration order, with the step's
    manifest entry if it has one, and returns; when a directory sits at
    the manifest's path, the exception of the load leaves [main] and
    nothing is printed. *)
Theorem main_list_steps_read_only (query : string → node → option exn)
    (parse_args : parser) (reg : list Step) (argv : list string)
    (args : Args) (s : Machine) :
  parse_args argv = inl args →
  arg_list_steps args = true →
  world (main query parse_args reg argv s).2 = world s
  ∧ calls_of (trace (main query parse_args reg argv s).2) = calls_of (trace s)
  ∧ (∀ m, persisted (world s) = Some (File (Json m))
          ∨ (persisted (world s) = None ∧ m = ∅) →
       main query parse_args reg argv s
       = (Returned, mkMachine (world s) (trace s ++ list_rows m reg)))
  ∧ (is_directory (persisted (world s)) →
       main query parse_args reg argv s
       = (Uncaught (IsADirectoryError MANIFEST_FILE), s)).
Proof.
  intros Hparse Hl. unfold main. rewrite Hparse, Hl.
  unfold list_steps, bind, load_manifest, persisted, is_directory.
  destruct (out_dir (world s) ≫= (.!! MANIFEST_FILE)) as [[[m|b]|ms]|];
    unfold ret, raise; rewrite ?for_each_emit_rows; simpl.
  - split_and!; [done| |by intros m' [[= <-]|[[=] _]]|by intros [? [=]]].
    rewrite calls_of_app.
    assert (calls_of (list_rows m reg) = []) as ->.
    { unfold list_rows. clear. by induction reg. }
    by rewrite app_nil_r.
  - split_and!; [done|done|by intros m' [[=]|[[=] _]]|by intros [? [=]]].
  - split_and!; [done|done|by intros m' [[=]|[[=] _]]|done].
  - split_and!; [done| |by intros m' [[=]|[_ ->]]|by intros [? [=]]].
    rewrite calls_of_app.
    assert (calls_of (list_rows ∅ reg) = []) as ->.
    { unfold list_rows. clear. by induction reg. }
    by rewrite app_nil_r.
Qed.

Lemma for_each_summarize_ok query tables w :
  (for_each (summarize query) tables (mkMachine w [])).1 = Ret tt
  ↔ ∀ t n, t ∈ tables → out_dir w ≫= (.!! t.2) = Some n →
           query t.1 n = None.
Proof.
  induction tables as [|t tables IH].
  - split; [by intros _ t n ?%elem_of_nil|done].
  - cbn [for_each]. unfold bind. rewrite (summarize_spec query t). simpl.
    unfold summarize at 1. simpl.
    destruct (out_dir w ≫= (.!! t.2)) as [n|] eqn:Hn.
    + destruct (query t.1 n) as [e|] eqn:Hq; simpl.
      * split; [done|]. intros H. specialize (H t n). rewrite Hq in H.
        by discriminate H; [left|].
      * rewrite IH. split.
        -- intros H t' n' [->|?]%elem_of_cons Hn'; [|by eapply H].
           by simplify_eq.
        -- intros H t' n' ? ?. eapply H; [by right|done].
    + simpl. rewrite IH. split.
      * intros H t' n' [->|?]%elem_of_cons Hn'; [congruence|by eapply H].
      * intros H t' n' ? ?. eapply H; [by right|done].
Qed.

(** X18. The reporter returns exactly when none of the artifacts that
    exist makes its queries raise: an artifact that is missing is reported
    as not found and never makes it raise.  In particular it returns on
    an output directory that holds none of the seven artifacts. *)
Theorem run_summary_returns_iff (query : string → node → option exn)
    (w : World) :
  (summary_outcome query w = Ret tt
   ↔ ∀ table path n, (table, path) ∈ ALL_TABLES →
                     out_dir w ≫= (.!! path) = Some n →
                     query table n = None)
  ∧ ((∀ table path, (table, path) ∈ ALL_TABLES →
                    out_dir w ≫= (.!! path) = None) →
     summary_outcome query w = Ret tt).
Proof.
  assert (Hiff : summary_outcome query w = Ret tt
    ↔ ∀ table path n, (table, path) ∈ ALL_TABLES →
                      out_dir w ≫= (.!! path) = Some n →
                      query table n = None).
  { assert (Heq : summary_outcome query w
                   = (for_each (summarize query) ALL_TABLES (mkMachine w [])).1).
    { unfold summary_outcome, run_summary, bind, emit. cbn [world trace app].
      rewrite (for_each_summarize _ _ (mkMachine _ [Reported])).
      cbn [world fst snd]. by destruct (for_each _ _ _) as [[[]|e] s']. }
    rewrite Heq, for_each_summarize_ok. split.
    - intros H table path n Hin Hn. by apply (H (table, path) n).
    - intros H [table path] n ? ?. by eapply H. }
  split; [done|]. intros Hnone. apply Hiff. intros table path n Hin Hn.
  rewrite (Hnone table path Hin) in Hn. done.
Qed.

(** ** Strings *)

Lemma string_app_nil b : "" +:+ b = b.
Proof. done. Qed.

Lemma string_app_cons c a b : String c a +:+ b = String c (a +:+ b).
Proof. done. Qed.

Lemma string_length_app a b :
  String.length (a +:+ b) = String.length a + String.length b.
Proof.
  induction a as [|c a IH]; [done|].
  rewrite string_app_cons. simpl. by rewrite IH.
Qed.

Lemma substring_all s : String.substring 0 (String.length s) s = s.
Proof. induction s as [|c s IH]; simpl; [done|]. by rewrite IH. Qed.

Lemma substring_app_r a b :
  String.substring (String.length a) (String.length b) (a +:+ b) = b.
Proof.
  induction a as [|c a IH]; [apply substring_all|].
  rewrite string_app_cons. simpl. done.
Qed.

Lemma substring_app_l a b :
  String.substring 0 (String.length a) (a +:+ b) = a.
Proof.
  induction a as [|c a IH]; [rewrite string_app_nil; by destruct b|].
  rewrite string_app_cons. simpl. by rewrite IH.
Qed.

Lemma substring_split s i :
  i ≤ String.length s →
  s = String.substring 0 i s +:+ String.substring i (String.length s - i) s.
Proof.
  revert i. induction s as [|c s IH]; intros i Hi; simpl in *.
  - by destruct i.
  - destruct i as [|i]; simpl.
    + by rewrite string_app_nil, substring_all.
    + rewrite string_app_cons. f_equal. apply IH. lia.
Qed.

(** [s.endswith(p)] holds exactly when [s] is something followed by [p]. *)
Lemma endswith_spec s p : endswith s p = true ↔ ∃ q, s = q +:+ p.
Proof.
  unfold endswith. rewrite andb_true_iff, Nat.leb_le, String.eqb_eq. split.
  - intros [Hle Hsub].
    exists (String.substring 0 (String.length s - String.length p) s).
    etrans;
      [apply (substring_split s (String.length s - String.length p)); lia|].
    f_equal.
    replace (String.length s - (String.length s - String.length p))
      with (String.length p) by lia.
    done.
  - intros [q ->]. rewrite string_length_app. split; [lia|].
    replace (String.length q + String.length p - String.length p)
      with (String.length q) by lia.
    apply substring_app_r.
Qed.

Lemma startswith_spec s p : startswith s p = true ↔ ∃ q, s = p +:+ q.
Proof.
  unfold startswith. split.
  - intros H. apply String.prefix_correct in H.
    exists (String.substring (String.length p)
              (String.length s - String.length p) s).
    assert (Hle : String.length p ≤ String.length s).
    { clear -H. revert s H. induction p as [|c p IH]; intros s H; simpl; [lia|].
      destruct s as [|c' s]; [done|]. simpl in *. injection H as _ H.
      apply IH in H. lia. }
    etrans; [apply (substring_split s (String.length p)); lia|].
    by rewrite H.
  - intros [q ->]. apply String.prefix_correct, substring_app_l.
Qed.

Lemma string_app_inj_l a b c : a +:+ b = a +:+ c → b = c.
Proof. apply (inj (String.app a)). Qed.

Lemma string_app_ne_l a b : b ≠ "" → a +:+ b ≠ a.
Proof.
  intros Hb H. apply (f_equal String.length) in H.
  rewrite string_length_app in H. destruct b; [done|]. simpl in H. lia.
Qed.

(** The names the steps stage under are stale names. *)
Lemma is_stale_staging name :
  is_stale (name +:+ ".tmp") = true
  ∧ is_stale (name +:+ "_old") = true
  ∧ is_stale (name +:+ "_building") = true
  ∧ is_stale ("_" +:+ name) = true.
Proof.
  unfold is_stale. split_and!.
  - rewrite (proj2 (endswith_spec _ ".tmp")) by eauto. done.
  - rewrite (proj2 (endswith_spec _ "_old")) by eauto. by rewrite orb_true_r.
  - rewrite (proj2 (endswith_spec _ "_building")) by eauto.
    by rewrite !orb_true_r.
  - rewrite (proj2 (startswith_spec _ "_")) by eauto. by rewrite !orb_true_r.
Qed.

(** ** Publishing artifacts *)

Lemma staging_ne dest : dest +:+ ".tmp" ≠ dest.
Proof. by apply string_app_ne_l. Qed.

(** [publish_file] case by case. *)
Lemma publish_file_cases rows (mk : bool) dest copy (od : option dir) :
  let tmp := dest +:+ ".tmp" in
  let od1 := if mk then Some (default ∅ od) else od in
  publish_file rows mk dest copy od
  = match copy od1 with
    | Raise e => (od1, Some e)
    | Ret c =>
        match od1 with
        | None => (od1, Some (IOException tmp))
        | Some d =>
            match d !! tmp with
            | Some (Dir _) => (od1, Some (IOException tmp))
            | _ =>
                match d !! dest with
                | Some (Dir _) =>
                    (Some (<[tmp := File c]> d), Some (IsADirectoryError dest))
                | _ =>
                    let od3 := Some (<[dest := File c]> (delete tmp d)) in
                    match rows (File c) with
                    | Raise e => (od3, Some e)
                    | Ret count =>
                        if (count <? 1)%Z
                        then (od3, Some (RuntimeError "Verification failed"))
                        else (od3, None)
                    end
                end
            end
        end
    end.
Proof.
  intros tmp od1. unfold publish_file. fold tmp. fold od1.
  destruct (copy od1) as [c|e]; [|done].
  destruct od1 as [d|]; [|done].
  unfold is_dir.
  assert (Hren : fs_step (Rename tmp dest) (Some (<[tmp := File c]> d))
    = match d !! dest with
      | Some (Dir _) => Raise (IsADirectoryError dest)
      | _ => Ret (Some (<[dest := File c]> (delete tmp d)))
      end).
  { cbn [fs_step]. rewrite lookup_insert_eq.
    rewrite lookup_insert_ne by apply staging_ne.
    rewrite delete_insert_eq. by destruct (d !! dest) as [[|]|]. }
  assert (Hver : verify_parquet rows dest 1
                   (Some (<[dest := File c]> (delete tmp d)))
    = match rows (File c) with
      | Ret count =>
          if (count <? 1)%Z then Raise (RuntimeError "Verification failed")
          else Ret count
      | Raise e => Raise e
      end).
  { unfold verify_parquet. simpl. by rewrite lookup_insert_eq. }
  destruct (d !! tmp) as [[|]|]; [|done|]; rewrite Hren;
    (destruct (d !! dest) as [[|]|]; [|done|]; rewrite Hver;
     destruct (rows (File c)) as [count|]; [|done| |done];
     by destruct (count <? 1)%Z).
Qed.

(** X19. When one of the single-file steps returns, its target holds what
    the query wrote, the query gave at least one row, no staging file is
    left, and no other entry of the output directory has changed. *)
Theorem publish_file_returns (rows : row_counter) (mk : bool) (dest : string)
    (copy : option dir → result content) (od od' : option dir) :
  publish_file rows mk dest copy od = (od', None) →
  ∃ c count,
    copy (if mk then Some (default ∅ od) else od) = Ret c
    ∧ rows (File c) = Ret count ∧ (1 ≤ count)%Z
    ∧ od' ≫= (.!! dest) = Some (File c)
    ∧ od' ≫= (.!! (dest +:+ ".tmp")) = None
    ∧ ∀ n, n ≠ dest → n ≠ dest +:+ ".tmp" →
           od' ≫= (.!! n) = od ≫= (.!! n).
Proof.
  rewrite publish_file_cases. cbv zeta.
  set (od1 := if mk then Some (default ∅ od) else od).
  assert (Hod1 : ∀ n, od1 ≫= (.!! n) = od ≫= (.!! n)).
  { intros n. unfold od1. destruct mk; [apply lookup_default_empty|done]. }
  destruct (copy od1) as [c|e]; [|done].
  destruct od1 as [d|] eqn:Hd; [|done].
  assert (Hok : ∀ count, rows (File c) = Ret count →
                         (count <? 1)%Z = false →
    ∃ c0 count0,
      Ret c = Ret c0 ∧ rows (File c0) = Ret count0 ∧ (1 ≤ count0)%Z
      ∧ Some (<[dest := File c]> (delete (dest +:+ ".tmp") d)) ≫= (.!! dest)
        = Some (File c0)
      ∧ Some (<[dest := File c]> (delete (dest +:+ ".tmp") d))
          ≫= (.!! (dest +:+ ".tmp")) = None
      ∧ ∀ n, n ≠ dest → n ≠ dest +:+ ".tmp" →
             Some (<[dest := File c]> (delete (dest +:+ ".tmp") d)) ≫= (.!! n)
             = od ≫= (.!! n)).
  { intros count Hrows Hlt. exists c, count. simpl. split_and!; try done.
    - lia.
    - apply lookup_insert_eq.
    - rewrite lookup_insert_ne by (apply not_eq_sym, staging_ne).
      apply lookup_delete_eq.
    - intros n ??. rewrite lookup_insert_ne, lookup_delete_ne by done.
      apply (Hod1 n). }
  destruct (d !! (dest +:+ ".tmp")) as [[|]|]; [|done|];
    (destruct (d !! dest) as [[|]|]; [|done|];
     destruct (rows (File c)) as [count|] eqn:Hrows; [|done| |done];
     destruct (count <? 1)%Z eqn:Hlt; [done| |done|];
     intros [= <-]; by apply (Hok count)).
Qed.


(** Nothing but the target and its staging file is ever touched. *)
Lemma publish_file_frame rows (mk : bool) dest copy (od : option dir) n :
  n ≠ dest → n ≠ dest +:+ ".tmp" →
  (publish_file rows mk dest copy od).1 ≫= (.!! n) = od ≫= (.!! n).
Proof.
  intros Hn1 Hn2. rewrite publish_file_cases. cbv zeta.
  set (od1 := if mk then Some (default ∅ od) else od).
  assert (Hod1 : od1 ≫= (.!! n) = od ≫= (.!! n)).
  { unfold od1. destruct mk; [apply lookup_default_empty|done]. }
  destruct (copy od1) as [c|e0]; [|done].
  destruct od1 as [d|] eqn:Hd; [|done].
  assert (H2 : Some (<[dest +:+ ".tmp" := File c]> d) ≫= (.!! n)
               = od ≫= (.!! n)).
  { simpl. by rewrite lookup_insert_ne. }
  assert (H3 : Some (<[dest := File c]> (delete (dest +:+ ".tmp") d))
                 ≫= (.!! n) = od ≫= (.!! n)).
  { simpl. by rewrite lookup_insert_ne, lookup_delete_ne. }
  destruct (d !! (dest +:+ ".tmp")) as [[|]|]; [|done|];
    (destruct (d !! dest) as [[|]|]; [|done|];
     destruct (rows (File c)) as [count|]; [|done| |done];
     by destruct (count <? 1)%Z).
Qed.

Lemma as_action_keeps_store ticks body :
  (∀ od n, n = MANIFEST_FILE ∨ n = MANIFEST_TMP →
           (body od).1 ≫= (.!! n) = od ≫= (.!! n)) →
  keeps_manifest_store (as_action ticks body).
Proof.
  intros Hbody w. unfold as_action, persisted, staged.
  pose proof (Hbody (out_dir w) MANIFEST_FILE (or_introl eq_refl)) as H1.
  pose proof (Hbody (out_dir w) MANIFEST_TMP (or_intror eq_refl)) as H2.
  destruct (body (out_dir w)) as [od r]. simpl in *. done.
Qed.

(** X21. The three single-file steps of the repository never touch an
    entry of the output directory other than their target and its staging
    file; in particular, however they end, they leave the manifest and the
    manifest's staging file as they were. *)
Theorem file_steps_keep_manifest_store (rows : row_counter)
    (copy : option dir → result content) (ticks : Z) :
  (∀ mk dest od n, n ≠ dest → n ≠ dest +:+ ".tmp" →
     (publish_file rows mk dest copy od).1 ≫= (.!! n) = od ≫= (.!! n))
  ∧ keeps_manifest_store (as_action ticks (build_hundred_day_aggs rows copy))
  ∧ keeps_manifest_store (as_action ticks (build_market_cap rows copy))
  ∧ keeps_manifest_store (as_action ticks (build_insider_trades rows copy)).
Proof.
  split_and!.
  - intros mk dest od n. apply publish_file_frame.
  - apply as_action_keeps_store. intros od n [-> | ->];
      by apply publish_file_frame.
  - apply as_action_keeps_store. intros od n [-> | ->];
      by apply publish_file_frame.
  - apply as_action_keeps_store. intros od n [-> | ->];
      by apply publish_file_frame.
Qed.

(** ** The directory swap *)

Lemma swap_names_ne final :
  final +:+ "_building" ≠ final
  ∧ final +:+ "_old" ≠ final
  ∧ final +:+ "_building" ≠ final +:+ "_old".
Proof.
  split_and!; [by apply string_app_ne_l..|].
  intros H. by apply string_app_inj_l in H.
Qed.

Lemma swap_in_fresh final d new :
  d !! final = None →
  d !! (final +:+ "_building") = Some (Dir new) →
  swap_in final (Some d)
  = (Ret tt, Some (<[final := Dir new]> (delete (final +:+ "_building") d))).
Proof.
  intros Hf Hb. unfold swap_in, swap_ops. simpl. rewrite Hf.
  rewrite bool_decide_eq_false_2 by (by intros [? ?]).
  simpl. by rewrite Hb, Hf.
Qed.

Lemma swap_in_replace final d old new :
  d !! final = Some (Dir old) →
  d !! (final +:+ "_building") = Some (Dir new) →
  d !! (final +:+ "_old") = None →
  swap_in final (Some d)
  = (Ret tt,
     Some (delete (final +:+ "_old")
             (<[final := Dir new]>
                (delete (final +:+ "_building")
                   (<[final +:+ "_old" := Dir old]> (delete final d)))))).
Proof.
  intros Hf Hb Ho. destruct (swap_names_ne final) as (Hn1 & Hn2 & Hn3).
  unfold swap_in, swap_ops. simpl. rewrite Hf.
  rewrite bool_decide_eq_true_2 by (by eexists).
  cbn [run_publish_ops publish_step fs_step]. rewrite Hf, Ho.
  cbn [run_publish_ops publish_step fs_step].
  rewrite lookup_insert_ne by (by apply not_eq_sym).
  rewrite lookup_delete_ne by (by apply not_eq_sym).
  rewrite Hb.
  rewrite lookup_insert_ne by done.
  rewrite lookup_delete_eq.
  cbn [run_publish_ops publish_step fs_step mbind option_bind].
  rewrite lookup_insert_ne by (by apply not_eq_sym).
  rewrite lookup_delete_ne by (by apply not_eq_sym).
  rewrite lookup_insert_eq. done.
Qed.

(** X22. The swap at the end of [build_prices] and [build_daily_aggs]:
    when the freshly built directory is in place and the target is absent
    or a directory (and no directory of an earlier swap is left), the swap
    returns, the target holds the new build, no building or old directory
    is left, and every other entry is unchanged. *)
Theorem swap_in_returns (final : string) (d : dir) (new : list (string * content)) :
  d !! (final +:+ "_building") = Some (Dir new) →
  d !! (final +:+ "_old") = None →
  (d !! final = None ∨ ∃ old, d !! final = Some (Dir old)) →
  ∃ d',
    swap_in final (Some d) = (Ret tt, Some d')
    ∧ d' !! final = Some (Dir new)
    ∧ d' !! (final +:+ "_building") = None
    ∧ d' !! (final +:+ "_old") = None
    ∧ ∀ n, n ≠ final → n ≠ final +:+ "_building" → n ≠ final +:+ "_old" →
           d' !! n = d !! n.
Proof.
  intros Hb Ho Hf. destruct (swap_names_ne final) as (Hn1 & Hn2 & Hn3).
  destruct Hf as [Hf | [old Hf]].
  - eexists. split; [by apply swap_in_fresh|]. split_and!.
    + apply lookup_insert_eq.
    + rewrite lookup_insert_ne by (by apply not_eq_sym).
      apply lookup_delete_eq.
    + rewrite lookup_insert_ne by (by apply not_eq_sym).
      by rewrite lookup_delete_ne.
    + intros n ? ? ?. by rewrite lookup_insert_ne, lookup_delete_ne.
  - eexists. split; [by eapply swap_in_replace|]. split_and!.
    + rewrite lookup_delete_ne by done. apply lookup_insert_eq.
    + rewrite lookup_delete_ne by (by apply not_eq_sym).
      rewrite lookup_insert_ne by (by apply not_eq_sym).
      apply lookup_delete_eq.
    + apply lookup_delete_eq.
    + intros n ? ? ?.
      rewrite lookup_delete_ne, lookup_insert_ne, lookup_delete_ne,
        lookup_insert_ne, lookup_delete_ne by done.
      done.
Qed.


Lemma cleaned_insert_stale n x d :
  is_stale n = true → cleaned (<[n := x]> d) = cleaned d.
Proof.
  intros Hst. apply map_eq. intros k. rewrite !cleaned_lookup.
  destruct (is_stale k) eqn:Hk; [done|].
  rewrite lookup_insert_ne; [done|]. intros ->. congruence.
Qed.

Lemma cleaned_delete_stale n d :
  is_stale n = true → cleaned (delete n d) = cleaned d.
Proof.
  intros Hst. apply map_eq. intros k. rewrite !cleaned_lookup.
  destruct (is_stale k) eqn:Hk; [done|].
  rewrite lookup_delete_ne; [done|]. intros ->. congruence.
Qed.

(** X24. What the next build's cleanup makes of a publish that stopped
    half way.  A staging file, a building directory or an old directory
    left behind is removed and nothing else changes: the output directory
    is cleaned as if the entry had never been written.  But the swap moves
    the published directory to the old name before the new one takes its
    place: stopped between its two renames, it leaves a directory in which
    the cleanup removes both builds, so that the target is gone. *)
Theorem cleanup_after_interrupted_publish (s : Machine) (d : dir)
    (name : string) (x : node) :
  is_stale name = false →
  (∀ n, n = name +:+ ".tmp" ∨ n = name +:+ "_building" ∨ n = name +:+ "_old" →
     out_dir (world s) = Some (<[n := x]> d) →
     ∃ s', cleanup_stale_artifacts s = (Ret tt, s')
           ∧ out_dir (world s') = Some (cleaned d))
  ∧ (∀ old new,
       d !! name = Some (Dir old) →
       d !! (name +:+ "_building") = Some (Dir new) →
       d !! (name +:+ "_old") = None →
       ∃ d1,
         run_publish_ops (take 1 (swap_ops name (Some d))) (Some d)
         = (Ret tt, Some d1)
         ∧ (out_dir (world s) = Some d1 →
            ∃ s', cleanup_stale_artifacts s = (Ret tt, s')
                  ∧ out_dir (world s') ≫= (.!! name) = None
                  ∧ out_dir (world s') ≫= (.!! (name +:+ "_old")) = None
                  ∧ out_dir (world s') ≫= (.!! (name +:+ "_building")) = None)).
Proof.
  intros Hname. destruct (is_stale_staging name) as (Ht & Ho & Hb & _). split.
  - intros n Hn Hout.
    destruct (cleanup_stale_artifacts_spec s) as (s' & Hc & Hout' & _).
    exists s'. split; [done|]. rewrite Hout', Hout. simpl. f_equal.
    apply cleaned_insert_stale. by destruct Hn as [-> | [-> | ->]].
  - intros old new Hf Hbd Hod.
    exists (<[name +:+ "_old" := Dir old]> (delete name d)). split.
    + unfold swap_ops. simpl. rewrite Hf.
      rewrite bool_decide_eq_true_2 by (by eexists).
      cbn [take run_publish_ops publish_step fs_step]. by rewrite Hf, Hod.
    + intros Hout.
      destruct (cleanup_stale_artifacts_spec s) as (s' & Hc & Hout' & _).
      exists s'. split; [done|]. rewrite Hout', Hout. simpl.
      rewrite !cleaned_lookup, Ho, Hb, Hname.
      destruct (swap_names_ne name) as (_ & Hn2 & _).
      rewrite lookup_insert_ne by done. by rewrite lookup_delete_eq.
Qed.

(** ** Ticker discovery *)





(** The rows and the count of [classify_tickers], in closed form. *)
Lemma classify_tickers_spec stock etf l :
  classify_tickers stock etf l
  = ((λ t, (t, if bool_decide (t ∈ dom etf) then "etf" else "stock")) <$> l,
     length (filter (λ t, t ∈ dom stock ∩ dom etf) l)).
Proof.
  unfold classify_tickers.
  induction l as [|t l IH] using rev_ind; [done|].
  rewrite fold_left_app, IH. simpl.
  rewrite fmap_app, filter_app, length_app, filter_cons, filter_nil. simpl.
  assert (He : bool_decide (is_Some (etf !! t)) = bool_decide (t ∈ dom etf)).
  { apply bool_decide_ext. by rewrite elem_of_dom. }
  assert (Hs : bool_decide (is_Some (stock !! t))
               = bool_decide (t ∈ dom stock)).
  { apply bool_decide_ext. by rewrite elem_of_dom. }
  rewrite He, Hs.
  destruct (decide (t ∈ dom etf)) as [D1|D1];
    destruct (decide (t ∈ dom stock)) as [D2|D2];
    rewrite ?(bool_decide_eq_true_2 _ D1), ?(bool_decide_eq_false_2 _ D1),
      ?(bool_decide_eq_true_2 _ D2), ?(bool_decide_eq_false_2 _ D2);
    [rewrite decide_True by set_solver|rewrite decide_False by set_solver..];
    simpl; f_equal; lia.
Qed.

(** The order of [sorted] is total and transitive, and [string_sorted]
    sorts by it. *)
Lemma string_le_lt a b :
  string_le a b ↔ OrderedTypeEx.String_as_OT.lt a b ∨ a = b.
Proof.
  unfold string_le, String.leb.
  rewrite <- OrderedTypeEx.String_as_OT.cmp_lt.
  rewrite <- OrderedTypeEx.String_as_OT.cmp_eq.
  unfold OrderedTypeEx.String_as_OT.cmp.
  destruct (String.compare a b); naive_solver.
Qed.

Lemma string_le_total : Total string_le.
Proof. intros a b. apply String.leb_total. Qed.

Lemma string_le_trans : Transitive string_le.
Proof.
  intros a b c. rewrite !string_le_lt.
  intros [Hab| ->] [Hbc| ->]; auto.
  left. by eapply OrderedTypeEx.String_as_OT.lt_trans.
Qed.

Lemma string_sorted_sorted X : StronglySorted string_le (string_sorted X).
Proof.
  pose proof string_le_trans as Htrans. pose proof string_le_total as Htotal.
  apply Sorted_StronglySorted; [done|]. by apply Sorted_merge_sort.
Qed.

Lemma string_sorted_perm (X : gset string) : string_sorted X ≡ₚ elements X.
Proof. apply merge_sort_Permutation. Qed.

(** X26. The rows [build_tickers] writes hold each ticker found in either
    set exactly once, in increasing order of the tickers; a ticker found
    among the ETFs is an [etf] also when it is found among the stocks, any
    other is a [stock]; and the overlap reported is the number of tickers
    found in both. *)
Theorem build_tickers_rows_etf_wins (stock etf : gmap string string) :
  let '(rows, overlap_count) := build_tickers_rows stock etf in
  StronglySorted string_le rows.*1
  ∧ NoDup rows.*1
  ∧ (∀ t, t ∈ rows.*1 ↔ t ∈ dom stock ∨ t ∈ dom etf)
  ∧ length rows = size (dom stock ∪ dom etf)
  ∧ (∀ t ty, (t, ty) ∈ rows ↔
       (t ∈ dom etf ∧ ty = "etf")
       ∨ (t ∈ dom stock ∧ (t ∉ dom etf) ∧ ty = "stock"))
  ∧ overlap_count = size (dom stock ∩ dom etf).
Proof.
  unfold build_tickers_rows.
  rewrite classify_tickers_spec.
  set (all := string_sorted (dom stock ∪ dom etf)).
  assert (Hall : all ≡ₚ elements (dom stock ∪ dom etf))
    by apply string_sorted_perm.
  assert (Hfst : ((λ t, (t, if bool_decide (t ∈ dom etf)
                            then "etf" else "stock")) <$> all).*1 = all).
  { rewrite <- list_fmap_compose. simpl. apply list_fmap_id. }
  split_and!.
  - rewrite Hfst. apply string_sorted_sorted.
  - rewrite Hfst, Hall. apply NoDup_elements.
  - intros t. rewrite Hfst, Hall, elem_of_elements. set_solver.
  - rewrite length_fmap, Hall. done.
  - intros t ty. rewrite list_elem_of_fmap. split.
    + intros (t' & [= -> ->] & Hin). rewrite Hall in Hin.
      apply elem_of_elements in Hin.
      case_bool_decide; [left|right]; set_solver.
    + intros [[Ht ->]|(Ht & Hn & ->)]; exists t.
      * split; [by rewrite bool_decide_eq_true_2|].
        rewrite Hall. apply elem_of_elements. set_solver.
      * split; [by rewrite bool_decide_eq_false_2|].
        rewrite Hall. apply elem_of_elements. set_solver.
  - unfold size, set_size. simpl. apply Permutation_length.
    apply NoDup_Permutation.
    + apply NoDup_filter. rewrite Hall. apply NoDup_elements.
    + apply NoDup_elements.
    + intros t. rewrite list_elem_of_filter, Hall, !elem_of_elements.
      set_solver.
Qed.

(** ** The properties on sample runs *)




(** X10 from a fresh machine. *)
Lemma save_load_round_trip_fresh :
  load_manifest (save_manifest old_manifest fresh).2
  = (Ret old_manifest, (save_manifest old_manifest fresh).2)
  ∧ ∃ s'', save_manifest ∅ (save_manifest old_manifest fresh).2 = (Ret tt, s'')
           ∧ load_manifest s'' = (Ret ∅, s'').
Proof.
  apply (save_load_round_trip old_manifest ∅ fresh).
  by_evaluation.
Defined.

(** X12 on the staging file left by a publish that did not finish. *)
Lemma cleanup_stale_artifacts_idempotent_interrupted :
  out_dir (world (cleanup_stale_artifacts interrupted).2)
  = cleaned <$> out_dir (world interrupted)
  ∧ clock (world (cleanup_stale_artifacts interrupted).2)
    = clock (world interrupted)
  ∧ trace (cleanup_stale_artifacts interrupted).2
    = trace interrupted ++ cleaning_log (entry_names (world interrupted))
  ∧ persisted (world (cleanup_stale_artifacts interrupted).2)
    = persisted (world interrupted)
  ∧ staged (world (cleanup_stale_artifacts interrupted).2) = None
  ∧ cleanup_stale_artifacts (cleanup_stale_artifacts interrupted).2
    = (Ret tt, (cleanup_stale_artifacts interrupted).2).
Proof.
  apply (cleanup_stale_artifacts_idempotent interrupted).
  by_evaluation.
Defined.



(** X17 on the registry of one step, from a fresh machine. *)
Lemma main_list_steps_read_only_solo :
  world (main query_ok (parsed (mkArgs [] false true false)) solo
              ["--list"] fresh).2 = world fresh
  ∧ calls_of (trace (main query_ok (parsed (mkArgs [] false true false)) solo
                          ["--list"] fresh).2)
    = calls_of (trace fresh)
  ∧ main query_ok (parsed (mkArgs [] false true false)) solo ["--list"] fresh
    = (Returned, mkMachine (world fresh) (trace fresh ++ list_rows ∅ solo)).
Proof.
  destruct (main_list_steps_read_only query_ok
              (parsed (mkArgs [] false true false)) solo ["--list"]
              (mkArgs [] false true false) fresh eq_refl eq_refl)
    as (Hw & Hc & Hrows & _).
  split_and!; [exact Hw|exact Hc|].
  apply Hrows. right. split; reflexivity.
Defined.

(** X19 on [build_market_cap] with no output directory yet. *)
Lemma publish_file_returns_market_cap :
  ∃ c count,
    copy_x (Some (default ∅ (None : option dir))) = Ret c
    ∧ one_row (File c) = Ret count ∧ (1 ≤ count)%Z
    ∧ (build_market_cap one_row copy_x None).1 ≫= (.!! "market_cap.parquet")
      = Some (File c)
    ∧ (build_market_cap one_row copy_x None).1
        ≫= (.!! ("market_cap.parquet" +:+ ".tmp")) = None
    ∧ ∀ n, n ≠ "market_cap.parquet" → n ≠ "market_cap.parquet" +:+ ".tmp" →
           (build_market_cap one_row copy_x None).1 ≫= (.!! n)
           = (None : option dir) ≫= (.!! n).
Proof.
  apply (publish_file_returns one_row true "market_cap.parquet" copy_x None).
  by_evaluation.
Defined.


(** X22 on a first build of [prices]. *)
Lemma swap_in_returns_prices :
  ∃ d',
    swap_in "prices" (Some built_prices) = (Ret tt, Some d')
    ∧ d' !! "prices" = Some (Dir [])
    ∧ d' !! ("prices" +:+ "_building") = None
    ∧ d' !! ("prices" +:+ "_old") = None
    ∧ ∀ n, n ≠ "prices" → n ≠ "prices" +:+ "_building" →
           n ≠ "prices" +:+ "_old" → d' !! n = built_prices !! n.
Proof.
  apply (swap_in_returns "prices" built_prices []).
  - reflexivity.
  - reflexivity.
  - left. reflexivity.
Defined.


(** X24 on a staging file left by a publish of [prices]. *)
Lemma cleanup_after_interrupted_publish_prices :
  ∃ s', cleanup_stale_artifacts interrupted = (Ret tt, s')
        ∧ out_dir (world s') = Some (cleaned ∅).
Proof.
  apply (proj1 (cleanup_after_interrupted_publish interrupted ∅ "prices"
                  (File (Bytes "x")) eq_refl) ("prices" +:+ ".tmp")).
  - left. reflexivity.
  - reflexivity.
Defined.

(** X26 on a ticker found among the stocks and among the ETFs, and one
    found among the stocks only. *)
Example build_tickers_rows_both :
  build_tickers_rows
    (<["SPY" := "stocks.zip"]> (<["AAPL" := "stocks.zip"]> ∅))
    (<["SPY" := "etfs.zip"]> ∅)
  = ([("AAPL", "stock"); ("SPY", "etf")], 1).
Proof. by_evaluation. Qed.
